(** * mautrix-signal formatter: Signal <-> Matrix text conversion

    A shallow embedding of [mautrix_signal/formatter.py]: the UTF-16
    surrogate helpers [add_surrogate] / [del_surrogate], the inbound
    conversion [signal_to_matrix], the markdown-producing
    [SignalFormatString.format], [MatrixParser.user_pill_to_fstring] and the
    outbound conversion [matrix_to_signal].

    A Python [str] is a sequence of code points; it is modelled as a list of
    integers.  Exceptions are modelled by the [result] type. *)

From Stdlib Require Import String Ascii.
From Stdlib Require Import ZArith List Bool Lia.
Import ListNotations.
Open Scope Z_scope.

(* ================================================================== *)
(** * Part I: definitions *)
(* ================================================================== *)

(** ** Python values and exceptions *)

(** The exceptions that the modelled code can raise. *)
Inductive exn : Type :=
| UnicodeDecodeError
| UnicodeEncodeError
| StructError
| KeyError
| AttributeError.

Inductive result (A : Type) : Type :=
| Ok (a : A)
| Raise (e : exn).
Arguments Ok {A} a.
Arguments Raise {A} e.

Definition bind {A B : Type} (r : result A) (f : A -> result B) : result B :=
  match r with
  | Ok a => f a
  | Raise e => Raise e
  end.

Notation "x <- c ;; k" := (bind c (fun x => k))
  (at level 61, c at next level, right associativity).
Notation "' pat <- c ;; k" := (bind c (fun x => match x with pat => k end))
  (at level 61, pat pattern, c at next level, right associativity).

(** A Python string: the list of its code points ([ord] of each character). *)
Definition pystr : Type := list Z.

(** An ASCII literal as a Python string. *)
Definition py (s : string) : pystr :=
  map (fun a => Z.of_N (N_of_ascii a)) (list_ascii_of_string s).

(** [len(s)] *)
Definition len {A : Type} (s : list A) : Z := Z.of_nat (List.length s).

(** [s + t + ...] over a list of pieces: ["".join(chunks)]. *)
Definition str_join (chunks : list pystr) : pystr := concat chunks.

(** [sep.join(parts)] *)
Fixpoint sep_join (sep : pystr) (parts : list pystr) : pystr :=
  match parts with
  | [] => []
  | p :: ps =>
      match ps with
      | [] => p
      | _ :: _ => p ++ sep ++ sep_join sep ps
      end
  end.

(** Python slicing [s[a:b]] with integer bounds; [b = None] is [s[a:]].
    A negative index counts from the end, and every index is clamped to
    [0 .. len(s)]: slicing never raises. *)
Definition slice_index (n i : Z) : Z :=
  if i <? 0 then Z.max 0 (i + n) else Z.min i n.

Definition py_slice {A : Type} (s : list A) (a : Z) (b : option Z) : list A :=
  let n := len s in
  let lo := slice_index n a in
  let hi := match b with
            | Some b => slice_index n b
            | None => n
            end in
  firstn (Z.to_nat (hi - lo)) (skipn (Z.to_nat lo) s).

(** [html.escape(s)] with its default [quote=True]: the five characters
    [&], [<], [>], double quote and single quote are replaced. *)
Definition html_escape_char (c : Z) : pystr :=
  if c =? 38 then py "&amp;"
  else if c =? 60 then py "&lt;"
  else if c =? 62 then py "&gt;"
  else if c =? 34 then py "&quot;"
  else if c =? 39 then py "&#x27;"
  else [c].

Definition html_escape (s : pystr) : pystr := flat_map html_escape_char s.

(** ** UTF-16 codec of the Python runtime *)

Definition is_high_surrogate (u : Z) : bool := (0xD800 <=? u) && (u <=? 0xDBFF).
Definition is_low_surrogate (u : Z) : bool := (0xDC00 <=? u) && (u <=? 0xDFFF).
Definition is_surrogate (u : Z) : bool := (0xD800 <=? u) && (u <=? 0xDFFF).

(** The two code units of a code point above the BMP. *)
Definition high_surrogate (c : Z) : Z := 0xD800 - Z.shiftr 0x10000 10 + Z.shiftr c 10.
Definition low_surrogate (c : Z) : Z := 0xDC00 + Z.land c 0x3FF.

(** The code point of a surrogate pair. *)
Definition join_surrogates (hi lo : Z) : Z :=
  0x10000 + Z.lor (Z.shiftl (Z.land hi 0x3FF) 10) (Z.land lo 0x3FF).

Inductive ByteOrder : Type := LittleEndian | BigEndian.

(** The [errors] argument of [str.encode]. *)
Inductive ErrorHandler : Type := strict | surrogatepass.

(** Bytes are integers in [0 .. 255]. *)
Definition unit_bytes (bo : ByteOrder) (u : Z) : list Z :=
  match bo with
  | LittleEndian => [Z.land u 0xFF; Z.shiftr u 8]
  | BigEndian => [Z.shiftr u 8; Z.land u 0xFF]
  end.

Definition bytes_unit (bo : ByteOrder) (b0 b1 : Z) : Z :=
  match bo with
  | LittleEndian => Z.lor (Z.shiftl b1 8) b0
  | BigEndian => Z.lor (Z.shiftl b0 8) b1
  end.

(** One character of a UTF-16 encoder.  A surrogate code point is refused
    under [strict] and written as it is under [surrogatepass]. *)
Definition encode_char (bo : ByteOrder) (errors : ErrorHandler) (c : Z)
  : result (list Z) :=
  if c <? 0x10000 then
    match errors with
    | strict => if is_surrogate c then Raise UnicodeEncodeError
                else Ok (unit_bytes bo c)
    | surrogatepass => Ok (unit_bytes bo c)
    end
  else Ok (unit_bytes bo (high_surrogate c) ++ unit_bytes bo (low_surrogate c)).

Fixpoint encode_chars (bo : ByteOrder) (errors : ErrorHandler) (s : pystr)
  : result (list Z) :=
  match s with
  | [] => Ok []
  | c :: s' =>
      bs <- encode_char bo errors c ;;
      rest <- encode_chars bo errors s' ;;
      Ok (bs ++ rest)
  end.

(** [s.encode("utf-16le", errors)]: little endian, no byte order mark. *)
Definition encode_utf_16le (errors : ErrorHandler) (s : pystr) : result (list Z) :=
  encode_chars LittleEndian errors s.

(** Code units of a byte string; an odd number of bytes is truncated data. *)
Fixpoint units_of_bytes (bo : ByteOrder) (bs : list Z) : result (list Z) :=
  match bs with
  | [] => Ok []
  | [_] => Raise UnicodeDecodeError
  | b0 :: b1 :: rest =>
      us <- units_of_bytes bo rest ;;
      Ok (bytes_unit bo b0 b1 :: us)
  end.

(** Strict decoding of code units: a high surrogate must be followed by a
    low one, and a low surrogate cannot come first. *)
Fixpoint chars_of_units (us : list Z) : result pystr :=
  match us with
  | [] => Ok []
  | u :: rest =>
      if is_high_surrogate u then
        match rest with
        | [] => Raise UnicodeDecodeError
        | l :: rest' =>
            if is_low_surrogate l then
              s <- chars_of_units rest' ;;
              Ok (join_surrogates u l :: s)
            else Raise UnicodeDecodeError
        end
      else if is_low_surrogate u then Raise UnicodeDecodeError
      else
        s <- chars_of_units rest ;;
        Ok (u :: s)
  end.

(** [struct.unpack("<HH", bs)]: exactly four bytes, two little-endian
    unsigned 16-bit integers. *)
Definition struct_unpack_HH (bs : list Z) : result (Z * Z) :=
  match bs with
  | [b0; b1; b2; b3] =>
      Ok (bytes_unit LittleEndian b0 b1, bytes_unit LittleEndian b2 b3)
  | _ => Raise StructError
  end.

Section Runtime.

(** [sys.byteorder]: the byte order of the machine that runs the bridge.
    The ["utf-16"] codec writes in this order, after a byte order mark. *)
Variable native : ByteOrder.

(** [s.encode("utf-16", errors)] *)
Definition encode_utf_16 (errors : ErrorHandler) (s : pystr) : result (list Z) :=
  bs <- encode_chars native errors s ;;
  Ok (unit_bytes native 0xFEFF ++ bs).

(** [bs.decode("utf-16")]: a leading byte order mark selects the byte order
    and is dropped; without one the native order is used. *)
Definition decode_utf_16 (bs : list Z) : result pystr :=
  let '(bo, data) :=
    match bs with
    | b0 :: b1 :: rest =>
        let bom := Z.lor (Z.shiftl b1 8) b0 in
        if bom =? 0xFEFF then (LittleEndian, rest)
        else if bom =? 0xFFFE then (BigEndian, rest)
        else (native, bs)
    | _ => (native, bs)
    end in
  us <- units_of_bytes bo data ;;
  chars_of_units us.

(** ** formatter.py: surrogate helpers *)

(** [add_surrogate]: every character in [0x10000 .. 0x10FFFF] is encoded as
    UTF-16LE, unpacked as two 16-bit integers, and each becomes a
    character; any other character is kept. *)
Definition add_surrogate_char (x : Z) : result pystr :=
  if (0x10000 <=? x) && (x <=? 0x10FFFF) then
    bs <- encode_utf_16le strict [x] ;;
    '(y1, y2) <- struct_unpack_HH bs ;;
    Ok [y1; y2]
  else Ok [x].

Fixpoint add_surrogate (text : pystr) : result pystr :=
  match text with
  | [] => Ok []
  | x :: text' =>
      piece <- add_surrogate_char x ;;
      rest <- add_surrogate text' ;;
      Ok (piece ++ rest)
  end.

(** [del_surrogate]: [text.encode("utf-16", "surrogatepass").decode("utf-16")] *)
Definition del_surrogate (text : pystr) : result pystr :=
  bs <- encode_utf_16 surrogatepass text ;;
  decode_utf_16 bs.

End Runtime.

(** ** Data model *)

Definition UUID : Type := N.
Definition UserID : Type := pystr.

(** Modelled from the spec: [mausignald.types.Address] is not part of the
    sources; it is the key of the lookup by identifier.  The formatter only
    ever fills in [uuid]. *)
Module Address.
Record t : Type := Build { uuid : option UUID; number : option pystr }.
End Address.

(** Modelled from the spec: [mausignald.types.Mention] is not part of the
    sources.  The spec's Mention has an identifier, a start and a length,
    counted in UTF-16 code units.  [uuid] holds whatever the caller stored,
    [None] included. *)
Module Mention.
Record t : Type := Build { uuid : option UUID; start : Z; length : Z }.
End Mention.

(** Modelled from the spec: [mausignald.types.MessageData] is not part of
    the sources.  The spec's inbound message has a body and a list of
    mentions. *)
Module MessageData.
Record t : Type := Build { body : pystr; mentions : list Mention.t }.
End MessageData.

(** Modelled from the spec: the modules [puppet] and [user] of the bridge
    are not part of the sources.  The lookup of the spec gives a display
    name and a linked address; these records have the fields that the
    formatter reads, [name] and [uuid] being optional. *)
Module Puppet.
Record t : Type := Build { uuid : option UUID; name : option pystr; mxid : UserID }.
End Puppet.

Module User.
Record t : Type := Build { uuid : option UUID }.
End User.

(** Modelled from the spec: [mautrix.types.Format], [MessageType] and
    [TextMessageEventContent] are not part of the sources.  The spec's rich
    content has a plain body, a format that is HTML or not, an optional
    formatted body and a message type tag. *)
Inductive Format : Type := HTML | OTHER_FORMAT.

Inductive MessageType : Type :=
| TEXT | EMOTE | NOTICE | IMAGE | STICKER | VIDEO | AUDIO | FILE | LOCATION.

Record TextMessageEventContent : Type := {
  msgtype : MessageType;
  body : pystr;
  format : option Format;
  formatted_body : option pystr
}.

(** Truth value of an optional string: [None] and [""] are false. *)
Definition truthy (s : option pystr) : bool :=
  match s with
  | Some (_ :: _) => true
  | _ => false
  end.

(** [a or b] for an optional string [a]. *)
Definition or_else (a : option pystr) (b : pystr) : pystr :=
  match a with
  | Some (c :: s) => c :: s
  | _ => b
  end.

(** ** formatter.py: [signal_to_matrix] *)

(** The anchor of a mention:
    [f'<a href="https://matrix.to/#/{puppet.mxid}">{name}</a>'] *)
Definition mention_anchor (mxid name : pystr) : pystr :=
  py "<a href=" ++ [34] ++ py "https://matrix.to/#/" ++ mxid ++ [34] ++ py ">"
    ++ name ++ py "</a>".

Section Inbound.

Variable native : ByteOrder.

(** [pu.Puppet.get_by_address]: the puppet directory of the bridge.  With
    its default [create=True] it makes a puppet when none is stored; the
    result is taken as a function of the address. *)
Variable Puppet_get_by_address : Address.t -> option Puppet.t.

(** The body of [for mention in message.mentions], threading
    [last_offset], [text_chunks] and [html_chunks]. *)
Fixpoint mention_loop (surrogated_text : pystr) (ms : list Mention.t)
    (last_offset : Z) (text_chunks html_chunks : list pystr)
  : result (Z * list pystr * list pystr) :=
  match ms with
  | [] => Ok (last_offset, text_chunks, html_chunks)
  | mention :: ms' =>
      let before := py_slice surrogated_text last_offset (Some (Mention.start mention)) in
      let last_offset := Mention.start mention + Mention.length mention in
      let text_chunks := text_chunks ++ [before] in
      let html_chunks := html_chunks ++ [html_escape before] in
      match Puppet_get_by_address (Address.Build (Mention.uuid mention) None) with
      | None => Raise AttributeError
      | Some puppet =>
          name <- add_surrogate (or_else (Puppet.name puppet) (Puppet.mxid puppet)) ;;
          let text_chunks := text_chunks ++ [name] in
          let html_chunks := html_chunks ++ [mention_anchor (Puppet.mxid puppet) name] in
          mention_loop surrogated_text ms' last_offset text_chunks html_chunks
      end
  end.

Definition signal_to_matrix (message : MessageData.t) : result TextMessageEventContent :=
  let content :=
    {| msgtype := TEXT; body := MessageData.body message;
       format := None; formatted_body := None |} in
  surrogated_text <- add_surrogate (MessageData.body message) ;;
  match MessageData.mentions message with
  | [] => Ok content
  | _ :: _ =>
      '(last_offset, text_chunks, html_chunks) <-
        mention_loop surrogated_text (MessageData.mentions message) 0 [] [] ;;
      let end_ := py_slice surrogated_text last_offset None in
      let text_chunks := text_chunks ++ [end_] in
      let html_chunks := html_chunks ++ [html_escape end_] in
      new_body <- del_surrogate native (str_join text_chunks) ;;
      new_formatted <- del_surrogate native (str_join html_chunks) ;;
      Ok {| msgtype := TEXT; body := new_body;
            format := Some HTML; formatted_body := Some new_formatted |}
  end.

End Inbound.

(** ** formatter.py: [MentionEntity] *)

Module MentionEntity.
Definition t : Type := Mention.t.
Definition offset (self : t) : Z := Mention.start self.
Definition set_offset (self : t) (val : Z) : t :=
  Mention.Build (Mention.uuid self) val (Mention.length self).
Definition copy (self : t) : t :=
  Mention.Build (Mention.uuid self) (Mention.start self) (Mention.length self).
End MentionEntity.

(** Modelled from the spec: [mautrix.util.formatter.EntityType] is not part
    of the sources.  The kinds named by [format], and the further kinds of
    the markup vocabulary, for which [format] changes nothing. *)
Inductive EntityType : Type :=
| BOLD | ITALIC | STRIKETHROUGH | UNDERLINE | URL | EMAIL | USER_MENTION
| ROOM_MENTION | PREFORMATTED | INLINE_CODE | BLOCKQUOTE | HEADER | COLOR
| SPOILER.

(** The keyword arguments of [format]; [None] is an absent key. *)
Record Kwargs : Type := {
  kw_uuid : option (option UUID);
  kw_url : option pystr;
  kw_language : option pystr;
  kw_size : option Z
}.

Definition no_kwargs : Kwargs :=
  {| kw_uuid := None; kw_url := None; kw_language := None; kw_size := None |}.

(** [kwargs[key]] *)
Definition kwargs_get {A : Type} (v : option A) : result A :=
  match v with
  | Some a => Ok a
  | None => Raise KeyError
  end.

(** The characters removed by [str.strip()]. *)
Definition py_isspace (c : Z) : bool :=
  ((9 <=? c) && (c <=? 13)) || ((28 <=? c) && (c <=? 32))
  || (c =? 0x85) || (c =? 0xA0) || (c =? 0x1680)
  || ((0x2000 <=? c) && (c <=? 0x200A))
  || (c =? 0x2028) || (c =? 0x2029) || (c =? 0x202F) || (c =? 0x205F)
  || (c =? 0x3000).

Fixpoint lstrip (s : pystr) : pystr :=
  match s with
  | [] => []
  | c :: s' => if py_isspace c then lstrip s' else s
  end.

Definition rstrip (s : pystr) : pystr := rev (lstrip (rev s)).

(** [s.split(sep)] for a separator of one character: the first piece and
    the pieces after it. *)
Fixpoint split_first (sep : Z) (s : pystr) : pystr * list pystr :=
  match s with
  | [] => ([], [])
  | c :: s' =>
      let '(p, ps) := split_first sep s' in
      if c =? sep then ([], p :: ps) else (c :: p, ps)
  end.

Definition str_split (sep : Z) (s : pystr) : list pystr :=
  let '(p, ps) := split_first sep s in p :: ps.

(** ** formatter.py: [SignalFormatString] *)

Module SignalFormatString.

Record t : Type := Build { text : pystr; entities : list MentionEntity.t }.

(** Modelled from the spec: [EntityString._offset_entities] is inherited
    from [mautrix.util.formatter], which is not part of the sources.  The
    spec's wrap rule: every entity's offset increases by the given amount. *)
Definition _offset_entities (self : t) (offset : Z) : t :=
  Build (text self)
        (map (fun e => MentionEntity.set_offset e (MentionEntity.offset e + offset))
             (entities self)).

(** Modelled from the spec: [EntityString.prepend] is inherited from
    [mautrix.util.formatter], which is not part of the sources.  The text
    gets the prefix, and by the spec's invariant an operation that lengthens
    the text before an entity shifts its offset by the same amount. *)
Definition prepend (self : t) (s : pystr) : t :=
  Build (s ++ text self) (entities (_offset_entities self (len s))).

(** Modelled from the spec: what [EntityString.trim] does to one entity.
    An entity inside the remainder moves left by the number of removed
    leading characters, an entity that does not meet the remainder is
    dropped, and one that straddles an end is clipped to the remainder. *)
Definition trim_entity (removed kept : Z) (e : MentionEntity.t) : list MentionEntity.t :=
  let o := MentionEntity.offset e - removed in
  let l := Mention.length e in
  if (0 <=? o) && (0 <=? l) && (o + l <=? kept) then [Mention.Build (Mention.uuid e) o l]
  else
    let a := Z.max 0 o in
    let b := Z.min kept (o + l) in
    if a <? b then [Mention.Build (Mention.uuid e) a (b - a)] else [].

(** Modelled from the spec: [EntityString.trim] is inherited from
    [mautrix.util.formatter], which is not part of the sources.  Leading and
    trailing whitespace is removed from the text, and the entities follow. *)
Definition trim (self : t) : t :=
  let stripped := lstrip (text self) in
  let removed := len (text self) - len stripped in
  let new_text := rstrip stripped in
  Build new_text (flat_map (trim_entity removed (len new_text)) (entities self)).

(** Modelled from the spec: what [EntityString.split] does to one entity
    for the segment of length [n] that starts at [pos].  An entity goes to
    the segment in which it starts, with its offset counted from the start
    of that segment, and is clipped to the end of that segment. *)
Definition segment_entity (pos n : Z) (e : MentionEntity.t) : list MentionEntity.t :=
  let o := MentionEntity.offset e - pos in
  if (0 <=? o) && (o <=? n)
  then [Mention.Build (Mention.uuid e) o (Z.min (Mention.length e) (n - o))]
  else [].

(** Modelled from the spec: the segments of [EntityString.split], one for
    each piece of the text, the first of them starting at [pos]. *)
Fixpoint split_at (pos : Z) (parts : list pystr) (ents : list MentionEntity.t) : list t :=
  match parts with
  | [] => []
  | p :: ps =>
      Build p (flat_map (segment_entity pos (len p)) ents)
        :: split_at (pos + len p + 1) ps ents
  end.

(** Modelled from the spec: [EntityString.split] is inherited from
    [mautrix.util.formatter], which is not part of the sources.  The text is
    cut at every separator, here a separator of one character. *)
Definition split (self : t) (separator : Z) : list t :=
  split_at 0 (str_split separator (text self)) (entities self).

(** Modelled from the spec: [EntityString.join] with the result starting at
    [pos].  The texts are put together with the separator between them; the
    offsets of each part grow by the length of all parts and separators
    before it. *)
Fixpoint join_at (pos : Z) (items : list t) (separator : pystr) : t :=
  match items with
  | [] => Build [] []
  | x :: rest =>
      let here := entities (_offset_entities x pos) in
      match rest with
      | [] => Build (text x) here
      | _ :: _ =>
          let r := join_at (pos + len (text x) + len separator) rest separator in
          Build (text x ++ separator ++ text r) (here ++ entities r)
      end
  end.

(** Modelled from the spec: [EntityString.join] is inherited from
    [mautrix.util.formatter], which is not part of the sources. *)
Definition join (items : list t) (separator : pystr) : t :=
  join_at 0 items separator.

(** The tail of [format] shared by the wrapping kinds:
    [self._offset_entities(len(prefix))] and then
    [self.text = f"{prefix}{self.text}{suffix}"]. *)
Definition wrap (self : t) (prefix suffix : pystr) : t :=
  let self := _offset_entities self (len prefix) in
  Build (prefix ++ text self ++ suffix) (entities self).

Definition format (self : t) (entity_type : EntityType) (kwargs : Kwargs) : result t :=
  match entity_type with
  | USER_MENTION =>
      uuid <- kwargs_get (kw_uuid kwargs) ;;
      Ok (Build (text self)
                (entities self ++ [Mention.Build uuid 0 (len (text self))]))
  | BOLD => Ok (wrap self (py "**") (py "**"))
  | ITALIC => Ok (wrap self (py "_") (py "_"))
  | STRIKETHROUGH => Ok (wrap self (py "~~") (py "~~"))
  | URL =>
      url <- kwargs_get (kw_url kwargs) ;;
      if list_eq_dec Z.eq_dec url (text self)
      then Ok (wrap self [] [])
      else Ok (wrap self [] (py " (" ++ url ++ py ")"))
  | PREFORMATTED =>
      language <- kwargs_get (kw_language kwargs) ;;
      Ok (wrap self (py "```" ++ language ++ [10]) ([10] ++ py "```"))
  | INLINE_CODE => Ok (wrap self (py "`") (py "`"))
  | BLOCKQUOTE =>
      let children := split (trim self) 10 in
      let children := map (fun child => prepend child (py "> ")) children in
      Ok (join children [10])
  | HEADER =>
      size <- kwargs_get (kw_size kwargs) ;;
      Ok (wrap self (repeat 35 (Z.to_nat size) ++ py " ") [])
  | _ => Ok self
  end.

End SignalFormatString.

(** ** formatter.py: [MatrixParser] *)

Module MatrixParser.

Section Lookups.

(** [u.User.get_by_mxid(user_id, create=False)] and
    [pu.Puppet.get_by_mxid(user_id, create=False)]: the user and puppet
    tables of the bridge. *)
Variable User_get_by_mxid : UserID -> option User.t.
Variable Puppet_get_by_mxid : UserID -> option Puppet.t.

(** [BaseMatrixParser.parse] of [mautrix.util.formatter]: the HTML parser
    that builds the format string, calling [format] and
    [user_pill_to_fstring] on the way. *)
Variable BaseMatrixParser_parse : pystr -> result SignalFormatString.t.

Definition user_pill_to_fstring (msg : SignalFormatString.t) (user_id : UserID)
  : result SignalFormatString.t :=
  let from_puppet :=
    match Puppet_get_by_mxid user_id with
    | Some puppet => Some (Puppet.uuid puppet)
    | None => None
    end in
  let uuid :=
    match User_get_by_mxid user_id with
    | Some user =>
        match User.uuid user with
        | Some uuid => Some (Some uuid)
        | None => from_puppet
        end
    | None => from_puppet
    end in
  match uuid with
  | None => Ok msg
  | Some uuid =>
      SignalFormatString.format msg USER_MENTION
        {| kw_uuid := Some uuid; kw_url := None; kw_language := None; kw_size := None |}
  end.

Definition parse (data : pystr) : result SignalFormatString.t :=
  BaseMatrixParser_parse data.

End Lookups.

End MatrixParser.

(** ** formatter.py: [matrix_to_signal] *)

Section Outbound.

Variable native : ByteOrder.

(** The parser of the base class, as in [MatrixParser]. *)
Variable BaseMatrixParser_parse : pystr -> result SignalFormatString.t.

(** [matrix_to_signal] assigns to the fields of its argument; the content
    as the caller sees it after the call is returned with the result. *)
Definition matrix_to_signal (content : TextMessageEventContent)
  : TextMessageEventContent * result (pystr * list Mention.t) :=
  let content :=
    match msgtype content with
    | EMOTE =>
        let content :=
          {| msgtype := msgtype content; body := py "/me " ++ body content;
             format := format content; formatted_body := formatted_body content |} in
        match formatted_body content with
        | Some (c :: s) =>
            {| msgtype := msgtype content; body := body content;
               format := format content;
               formatted_body := Some (py "/me " ++ c :: s) |}
        | _ => content
        end
    | _ => content
    end in
  (content,
   match format content, formatted_body content with
   | Some HTML, Some (c :: s) =>
       surrogated <- add_surrogate (c :: s) ;;
       parsed <- MatrixParser.parse BaseMatrixParser_parse surrogated ;;
       text <- del_surrogate native (SignalFormatString.text parsed) ;;
       Ok (text, SignalFormatString.entities parsed)
   | _, _ => Ok (body content, [])
   end).

End Outbound.

(** ** Notions used by the statements *)

(** A Python string holds code points up to [0x10FFFF]. *)
Definition is_str (s : pystr) : Prop := Forall (fun c => 0 <= c <= 0x10FFFF) s.

(** A well-formed string holds no surrogate code point. *)
Definition well_formed (s : pystr) : Prop :=
  Forall (fun c => 0 <= c <= 0x10FFFF /\ is_surrogate c = false) s.

(** The expand operation in the words of the spec: a code point of
    [0x10000] or more is replaced by the two UTF-16 code units it occupies
    (ten high bits on [0xD800], ten low bits on [0xDC00], after taking off
    [0x10000]); any other character is kept. *)
Definition expand_char (c : Z) : pystr :=
  if c <? 0x10000 then [c]
  else [0xD800 + (c - 0x10000) / 1024; 0xDC00 + (c - 0x10000) mod 1024].

Definition expand (s : pystr) : pystr := flat_map expand_char s.

(** The code units that the encoder writes for a string. *)
Definition code_units (c : Z) : list Z :=
  if c <? 0x10000 then [c] else [high_surrogate c; low_surrogate c].

Definition units (s : pystr) : list Z := flat_map code_units s.

(** Position [i] of a sequence of code units holds a surrogate without its
    partner: a high one not followed by a low one, or a low one not
    preceded by a high one. *)
Definition lone_surrogate_at (us : list Z) (i : nat) : Prop :=
  (i < List.length us)%nat /\
  ((is_high_surrogate (nth i us 0) = true /\ is_low_surrogate (nth (S i) us 0) = false)
   \/ (is_low_surrogate (nth i us 0) = true
       /\ (i = 0%nat \/ is_high_surrogate (nth (i - 1) us 0) = false))).

(** The marks of the wrapping kinds, as the spec's table of markup rules
    gives them: bold, italic, strikethrough, inline code, preformatted with
    its language, header with its size. *)
Definition wrap_marks (entity_type : EntityType) (kwargs : Kwargs)
  : option (pystr * pystr) :=
  match entity_type with
  | BOLD => Some (py "**", py "**")
  | ITALIC => Some (py "_", py "_")
  | STRIKETHROUGH => Some (py "~~", py "~~")
  | INLINE_CODE => Some (py "`", py "`")
  | PREFORMATTED =>
      match kw_language kwargs with
      | Some language => Some (py "```" ++ language ++ [10], 10 :: py "```")
      | None => None
      end
  | HEADER =>
      match kw_size kwargs with
      | Some size => Some (repeat 35 (Z.to_nat size) ++ py " ", [])
      | None => None
      end
  | _ => None
  end.

(** A sequence of [format] calls, the innermost markup first, as the parser
    makes them when it leaves nested tags. *)
Fixpoint format_all (self : SignalFormatString.t) (ops : list (EntityType * Kwargs))
  : result SignalFormatString.t :=
  match ops with
  | [] => Ok self
  | (entity_type, kwargs) :: ops' =>
      self' <- SignalFormatString.format self entity_type kwargs ;;
      format_all self' ops'
  end.

Definition shift_entity (d : Z) (e : MentionEntity.t) : MentionEntity.t :=
  Mention.Build (Mention.uuid e) (Mention.start e + d) (Mention.length e).

Definition prefix_total (marks : list (pystr * pystr)) : Z :=
  fold_right Z.add 0 (map (fun m => len (fst m)) marks).

(** [s.strip()] *)
Definition strip (s : pystr) : pystr := rstrip (lstrip s).

(** A text with ["> "] put at its start and after each of its newlines. *)
Definition quote_lines (t : pystr) : pystr :=
  py "> " ++ flat_map (fun c => if c =? 10 then 10 :: py "> " else [c]) t.

(** Where line [k] starts in a text cut into [lines] at its newlines. *)
Fixpoint line_start (lines : list pystr) (k : nat) : Z :=
  match k, lines with
  | S k', p :: ps => len p + 1 + line_start ps k'
  | _, _ => 0
  end.

(** A message body seen as pieces: before each mention a literal piece,
    then the piece that the mention covers; [who] is the mentioned user and
    [puppet] the record that the directory holds for it. *)
Record Segment : Type := {
  literal : pystr;
  span : pystr;
  who : option UUID;
  puppet : Puppet.t
}.

(** Length in UTF-16 code units. *)
Definition utf16_len (s : pystr) : Z := len (expand s).

(** The mentions of a segmented body, with offsets in UTF-16 code units. *)
Fixpoint layout (pos : Z) (segs : list Segment) : list Mention.t :=
  match segs with
  | [] => []
  | sg :: segs' =>
      let start := pos + utf16_len (literal sg) in
      Mention.Build (who sg) start (utf16_len (span sg))
        :: layout (start + utf16_len (span sg)) segs'
  end.

(** [puppet.name or puppet.mxid] *)
Definition display_name (p : Puppet.t) : pystr :=
  or_else (Puppet.name p) (Puppet.mxid p).

Definition body_of (segs : list Segment) (tail : pystr) : pystr :=
  concat (map (fun sg => literal sg ++ span sg) segs) ++ tail.

Definition plain_of (segs : list Segment) (tail : pystr) : pystr :=
  concat (map (fun sg => literal sg ++ display_name (puppet sg)) segs) ++ tail.

Definition html_of (segs : list Segment) (tail : pystr) : pystr :=
  concat (map (fun sg => html_escape (literal sg)
                           ++ mention_anchor (Puppet.mxid (puppet sg))
                                (display_name (puppet sg))) segs)
    ++ html_escape tail.

Definition segment_ok (directory : Address.t -> option Puppet.t) (sg : Segment) : Prop :=
  directory (Address.Build (who sg) None) = Some (puppet sg)
  /\ well_formed (literal sg) /\ well_formed (span sg)
  /\ well_formed (display_name (puppet sg))
  /\ well_formed (Puppet.mxid (puppet sg)).

(** Mentions that are sorted, do not overlap, have a positive length and
    lie between [pos] and [n]. *)
Fixpoint mentions_ordered (pos : Z) (ms : list Mention.t) (n : Z) : Prop :=
  match ms with
  | [] => pos <= n
  | m :: ms' =>
      pos <= Mention.start m /\ 0 < Mention.length m
      /\ mentions_ordered (Mention.start m + Mention.length m) ms' n
  end.

(** An offset in UTF-16 code units that falls between two characters of
    the body, not inside a surrogate pair. *)
Definition char_boundary (body : pystr) (o : Z) : Prop :=
  exists k, (k <= List.length body)%nat /\ utf16_len (firstn k body) = o.

(** A mention that covers whole characters of the text that starts at
    offset [pos]. *)
Definition aligned (body : pystr) (pos : Z) (m : Mention.t) : Prop :=
  char_boundary body (Mention.start m - pos)
  /\ char_boundary body (Mention.start m + Mention.length m - pos).

(** A mention that breaks the invariant of the data model. *)
Definition malformed (n : Z) (m : Mention.t) : Prop :=
  Mention.start m < 0 \/ Mention.length m <= 0
  \/ n < Mention.start m + Mention.length m.

(** A string of the Basic Multilingual Plane without surrogates. *)
Definition bmp (s : pystr) : Prop :=
  Forall (fun c => 0 <= c < 0x10000 /\ is_surrogate c = false) s.

(** Where a slice bound falls in a text of [n] characters, in the words of
    Python's slicing: a negative bound counts from the end, and the result
    is brought into [0 .. n]. *)
Definition position (n i : Z) : Z :=
  Z.max 0 (Z.min n (if i <? 0 then i + n else i)).

(** The characters of a text at the positions [lo <= k < hi], the first
    character of [s] being at position [k]. *)
Fixpoint between_from {A : Type} (k : Z) (s : list A) (lo hi : Z) : list A :=
  match s with
  | [] => []
  | c :: s' =>
      if (lo <=? k) && (k <? hi)
      then c :: between_from (k + 1) s' lo hi
      else between_from (k + 1) s' lo hi
  end.

Definition between {A : Type} (s : list A) (lo hi : Z) : list A :=
  between_from 0 s lo hi.

(** The stretch of a text from the bound [a] to the bound [b], or to its
    end: empty when [b] does not fall after [a]. *)
Definition stretch (t : pystr) (a : Z) (b : option Z) : pystr :=
  between t (position (len t) a)
    (match b with
     | Some b => position (len t) b
     | None => len t
     end).

(** The plain body for mentions with any offsets, each paired with its
    puppet: the stretch from the end of the mention before to the start of
    this one, the name, and so on; at last the stretch from the end of the
    last mention to the end of the text. *)
Fixpoint plain_with (t : pystr) (items : list (Mention.t * Puppet.t)) (last : Z) : pystr :=
  match items with
  | [] => stretch t last None
  | (m, p) :: items' =>
      stretch t last (Some (Mention.start m)) ++ display_name p
        ++ plain_with t items' (Mention.start m + Mention.length m)
  end.

(** The formatted body for the same: the stretches escaped, the names in
    their anchors. *)
Fixpoint html_with (t : pystr) (items : list (Mention.t * Puppet.t)) (last : Z) : pystr :=
  match items with
  | [] => html_escape (stretch t last None)
  | (m, p) :: items' =>
      html_escape (stretch t last (Some (Mention.start m)))
        ++ mention_anchor (Puppet.mxid p) (display_name p)
        ++ html_with t items' (Mention.start m + Mention.length m)
  end.

(** A mention with the puppet that the directory gives for it, the puppet
    having a well-formed name and Matrix id. *)
Definition item_ok (directory : Address.t -> option Puppet.t)
    (item : Mention.t * Puppet.t) : Prop :=
  directory (Address.Build (Mention.uuid (fst item)) None) = Some (snd item)
  /\ well_formed (display_name (snd item))
  /\ well_formed (Puppet.mxid (snd item)).

(** A mention whose puppet the directory finds, with a well-formed name
    and Matrix id. *)
Definition resolvable (directory : Address.t -> option Puppet.t) (m : Mention.t) : Prop :=
  exists p, directory (Address.Build (Mention.uuid m) None) = Some p
            /\ well_formed (display_name p) /\ well_formed (Puppet.mxid p).

(** Checkers for [well_formed] and [bmp]. *)
Definition well_formedb (s : pystr) : bool :=
  forallb (fun c => (0 <=? c) && (c <=? 0x10FFFF) && negb (is_surrogate c)) s.

Definition bmpb (s : pystr) : bool :=
  forallb (fun c => (0 <=? c) && (c <? 0x10000) && negb (is_surrogate c)) s.

(** A small puppet directory for the examples: Alice has a name, Bob has
    none. *)
Definition alice : Puppet.t :=
  Puppet.Build (Some 1%N) (Some (py "Alice")) (py "@signal_1:example.org").
Definition bob : Puppet.t :=
  Puppet.Build (Some 2%N) None (py "@signal_2:example.org").

Definition example_directory (address : Address.t) : option Puppet.t :=
  match Address.uuid address with
  | Some 1%N => Some alice
  | Some 2%N => Some bob
  | _ => None
  end.

(** ** Notions used by the further properties *)

(** The test of [add_surrogate]: a code point outside the BMP. *)
Definition astral (c : Z) : bool := (0x10000 <=? c) && (c <=? 0x10FFFF).

(** A UTF-16 code unit. *)
Definition code_unit (u : Z) : Prop := 0 <= u < 0x10000.

(** Whether the keyword that [format] reads for a kind is there. *)
Definition keyword_present (entity_type : EntityType) (kwargs : Kwargs) : bool :=
  match entity_type with
  | USER_MENTION => match kw_uuid kwargs with Some _ => true | None => false end
  | URL => match kw_url kwargs with Some _ => true | None => false end
  | PREFORMATTED => match kw_language kwargs with Some _ => true | None => false end
  | HEADER => match kw_size kwargs with Some _ => true | None => false end
  | _ => true
  end.

(** The characters [o .. o + l) of a text. *)
Definition covered (t : pystr) (o l : Z) : pystr := py_slice t o (Some (o + l)).

(* ================================================================== *)
(** * Part II: theorems *)
(* ================================================================== *)

(** ** Results and binds *)

Lemma bind_Ok {A B : Type} (a : A) (f : A -> result B) : bind (Ok a) f = f a.
Proof. reflexivity. Qed.

Lemma bind_Raise {A B : Type} (e : exn) (f : A -> result B) :
  bind (Raise e) f = Raise e.
Proof. reflexivity. Qed.

(** ** Lengths *)

Lemma len_nil {A : Type} : len (@nil A) = 0.
Proof. reflexivity. Qed.

Lemma len_cons {A : Type} (x : A) (s : list A) : len (x :: s) = 1 + len s.
Proof. unfold len. cbn [List.length]. lia. Qed.

Lemma len_app {A : Type} (s t : list A) : len (s ++ t) = len s + len t.
Proof. unfold len. rewrite length_app. lia. Qed.

Lemma len_nonneg {A : Type} (s : list A) : 0 <= len s.
Proof. unfold len. lia. Qed.

(** ** Bytes and code units *)

Lemma bytes_unit_unit_bytes (bo : ByteOrder) (u : Z) :
  match unit_bytes bo u with
  | [b0; b1] => bytes_unit bo b0 b1 = u
  | _ => False
  end.
Proof.
  assert (H : Z.lor (Z.shiftl (Z.shiftr u 8) 8) (Z.land u 255) = u).
  { rewrite <- (Z.ldiff_ones_r u 8) by lia.
    change 255 with (Z.ones 8). apply Z.lor_ldiff_and. }
  destruct bo; unfold unit_bytes, bytes_unit; exact H.
Qed.

Lemma units_of_bytes_unit (bo : ByteOrder) (u : Z) (bs : list Z) :
  units_of_bytes bo (unit_bytes bo u ++ bs)
  = (us <- units_of_bytes bo bs ;; Ok (u :: us)).
Proof.
  pose proof (bytes_unit_unit_bytes bo u) as H.
  destruct bo; unfold unit_bytes in *; cbn [app units_of_bytes]; rewrite H; reflexivity.
Qed.

Lemma encode_chars_units (bo : ByteOrder) (s : pystr) :
  encode_chars bo surrogatepass s = Ok (flat_map (unit_bytes bo) (units s)).
Proof.
  induction s as [|c s IH]; [reflexivity|].
  cbn [encode_chars]. rewrite IH. unfold encode_char, units. cbn [flat_map].
  fold (units s). unfold code_units.
  destruct (c <? 65536); cbn [bind flat_map app];
    rewrite ?app_nil_r, <- ?app_assoc; reflexivity.
Qed.

Lemma units_of_bytes_flat (bo : ByteOrder) (us : list Z) :
  units_of_bytes bo (flat_map (unit_bytes bo) us) = Ok us.
Proof.
  induction us as [|u us IH]; [reflexivity|].
  cbn [flat_map]. rewrite units_of_bytes_unit, IH. reflexivity.
Qed.

(** The byte order mark written by the encoder makes the decoder read the
    data in the order in which it was written. *)
Lemma decode_utf_16_bom (native : ByteOrder) (bs : list Z) :
  decode_utf_16 native (unit_bytes native 0xFEFF ++ bs)
  = (us <- units_of_bytes native bs ;; chars_of_units us).
Proof. destruct native; reflexivity. Qed.

(** [del_surrogate] decodes the code units of its argument. *)
Lemma del_surrogate_units (native : ByteOrder) (t : pystr) :
  del_surrogate native t = chars_of_units (units t).
Proof.
  unfold del_surrogate, encode_utf_16. rewrite encode_chars_units.
  cbn [bind]. rewrite decode_utf_16_bom, units_of_bytes_flat. reflexivity.
Qed.

(** ** Surrogate arithmetic *)

Lemma high_surrogate_spec (c : Z) :
  high_surrogate c = 0xD800 + (c - 0x10000) / 1024.
Proof.
  unfold high_surrogate. rewrite !Z.shiftr_div_pow2 by lia.
  change (2 ^ 10) with 1024. change (65536 / 1024) with 64.
  replace (c - 65536) with (c + (-64) * 1024) by lia.
  rewrite Z.div_add by lia. lia.
Qed.

Lemma low_surrogate_spec (c : Z) :
  low_surrogate c = 0xDC00 + (c - 0x10000) mod 1024.
Proof.
  unfold low_surrogate. change 1023 with (Z.ones 10).
  rewrite Z.land_ones by lia. change (2 ^ 10) with 1024.
  replace (c - 65536) with (c + (-64) * 1024) by lia.
  rewrite Z.mod_add by lia. reflexivity.
Qed.

Lemma code_units_expand_char (c : Z) : code_units c = expand_char c.
Proof.
  unfold code_units, expand_char. destruct (c <? 65536); [reflexivity|].
  rewrite high_surrogate_spec, low_surrogate_spec. reflexivity.
Qed.

Lemma units_expand (s : pystr) : units s = expand s.
Proof.
  unfold units, expand. induction s as [|c s IH]; [reflexivity|].
  cbn [flat_map]. rewrite IH, code_units_expand_char. reflexivity.
Qed.

Lemma lor_shiftl_low (q r n : Z) :
  0 <= n -> 0 <= r < 2 ^ n -> Z.lor (Z.shiftl q n) r = q * 2 ^ n + r.
Proof.
  intros Hn Hr. set (x := q * 2 ^ n + r).
  assert (Hq : Z.shiftr x n = q).
  { rewrite Z.shiftr_div_pow2 by lia. unfold x.
    rewrite Z.add_comm, Z.div_add by lia. rewrite Z.div_small by lia. lia. }
  assert (Hm : Z.land x (Z.ones n) = r).
  { rewrite Z.land_ones by lia. unfold x.
    rewrite Z.add_comm, Z.mod_add by lia. apply Z.mod_small; lia. }
  rewrite <- Hq at 1. rewrite <- (Z.ldiff_ones_r x n) by lia.
  rewrite <- Hm at 1. apply Z.lor_ldiff_and.
Qed.

Lemma join_surrogates_expand (c : Z) :
  0x10000 <= c <= 0x10FFFF ->
  join_surrogates (0xD800 + (c - 0x10000) / 1024) (0xDC00 + (c - 0x10000) mod 1024) = c.
Proof.
  intros Hc. unfold join_surrogates.
  set (q := (c - 65536) / 1024). set (r := (c - 65536) mod 1024).
  assert (Hq : 0 <= q < 1024) by (unfold q; split;
    [apply Z.div_pos; lia | apply Z.div_lt_upper_bound; lia]).
  assert (Hr : 0 <= r < 1024) by (unfold r; apply Z.mod_pos_bound; lia).
  change 1023 with (Z.ones 10). rewrite !Z.land_ones by lia.
  change (2 ^ 10) with 1024.
  replace ((55296 + q) mod 1024) with q
    by (replace (55296 + q) with (q + 54 * 1024) by lia;
        rewrite Z.mod_add by lia; symmetry; apply Z.mod_small; lia).
  replace ((56320 + r) mod 1024) with r
    by (replace (56320 + r) with (r + 55 * 1024) by lia;
        rewrite Z.mod_add by lia; symmetry; apply Z.mod_small; lia).
  rewrite lor_shiftl_low by (change (2 ^ 10) with 1024; lia).
  change (2 ^ 10) with 1024.
  pose proof (Z.div_mod (c - 65536) 1024 ltac:(lia)) as Hdm.
  fold q r in Hdm. lia.
Qed.

Lemma expand_char_pair_range (c : Z) :
  0x10000 <= c <= 0x10FFFF ->
  0xD800 <= 0xD800 + (c - 0x10000) / 1024 <= 0xDBFF
  /\ 0xDC00 <= 0xDC00 + (c - 0x10000) mod 1024 <= 0xDFFF.
Proof.
  intros Hc.
  assert (0 <= (c - 65536) / 1024 < 1024) by (split;
    [apply Z.div_pos; lia | apply Z.div_lt_upper_bound; lia]).
  pose proof (Z.mod_pos_bound (c - 65536) 1024 ltac:(lia)). lia.
Qed.

(** ** [add_surrogate] computes the expansion *)

Lemma add_surrogate_char_expand (x : Z) :
  x <= 0x10FFFF -> add_surrogate_char x = Ok (expand_char x).
Proof.
  intros Hx. rewrite <- code_units_expand_char.
  unfold add_surrogate_char, code_units.
  destruct (Z.leb_spec 65536 x) as [Hge|Hlt]; cbn [andb].
  - destruct (Z.leb_spec x 1114111) as [_|]; [|lia].
    unfold encode_utf_16le. cbn [encode_chars]. unfold encode_char.
    destruct (Z.ltb_spec x 65536) as [|_]; [lia|].
    cbn [bind]. rewrite app_nil_r.
    pose proof (bytes_unit_unit_bytes LittleEndian (high_surrogate x)) as Hh.
    pose proof (bytes_unit_unit_bytes LittleEndian (low_surrogate x)) as Hl.
    unfold unit_bytes in *. cbn [app struct_unpack_HH bind].
    rewrite Hh, Hl. reflexivity.
  - destruct (Z.ltb_spec x 65536) as [_|]; [reflexivity|lia].
Qed.

Lemma add_surrogate_expand (s : pystr) :
  is_str s -> add_surrogate s = Ok (expand s).
Proof.
  induction 1 as [|c s Hc _ IH]; [reflexivity|].
  cbn [add_surrogate]. rewrite add_surrogate_char_expand by lia.
  rewrite IH. reflexivity.
Qed.

Lemma well_formed_is_str (s : pystr) : well_formed s -> is_str s.
Proof. apply Forall_impl. intros c [H _]. exact H. Qed.

(** ** Decoding an expansion *)

Lemma chars_of_units_expand (s : pystr) :
  well_formed s -> chars_of_units (expand s) = Ok s.
Proof.
  induction 1 as [|c s [Hc Hs] _ IH]; [reflexivity|].
  unfold expand. cbn [flat_map]. fold (expand s). unfold expand_char.
  destruct (Z.ltb_spec c 65536) as [Hlt|Hge].
  - cbn [app chars_of_units].
    unfold is_surrogate in Hs. unfold is_high_surrogate, is_low_surrogate.
    destruct (Z.leb_spec 55296 c), (Z.leb_spec c 56319), (Z.leb_spec 56320 c),
      (Z.leb_spec c 57343); cbn [andb] in *; try discriminate; try lia;
      rewrite IH; reflexivity.
  - destruct (expand_char_pair_range c ltac:(lia)) as [Hh Hl].
    cbn [app chars_of_units].
    unfold is_high_surrogate at 1.
    destruct (Z.leb_spec 55296 (55296 + (c - 65536) / 1024)); [|lia].
    destruct (Z.leb_spec (55296 + (c - 65536) / 1024) 56319); [|lia].
    cbn [andb]. unfold is_low_surrogate at 1.
    destruct (Z.leb_spec 56320 (56320 + (c - 65536) mod 1024)); [|lia].
    destruct (Z.leb_spec (56320 + (c - 65536) mod 1024) 57343); [|lia].
    cbn [andb]. rewrite IH. cbn [bind].
    rewrite join_surrogates_expand by lia. reflexivity.
Qed.

(** A string collapses to [s] when its code units are those of the
    well-formed string [s]. *)
Lemma del_surrogate_of_units (native : ByteOrder) (t s : pystr) :
  well_formed s -> units t = expand s -> del_surrogate native t = Ok s.
Proof.
  intros Hs Ht. rewrite del_surrogate_units, Ht. apply chars_of_units_expand, Hs.
Qed.

(** ** Unpaired surrogates *)

Lemma high_not_low (u : Z) :
  is_high_surrogate u = true -> is_low_surrogate u = true -> False.
Proof.
  unfold is_high_surrogate, is_low_surrogate. intros H1 H2.
  apply andb_true_iff in H1, H2. lia.
Qed.

Lemma units_below (us : list Z) :
  Forall (fun u => u < 0x10000) us -> units us = us.
Proof.
  induction 1 as [|u us Hu _ IH]; [reflexivity|].
  unfold units. cbn [flat_map]. fold (units us). rewrite IH.
  unfold code_units. destruct (Z.ltb_spec u 65536); [reflexivity|lia].
Qed.

Lemma lone_surrogate_tail (u : Z) (rest : list Z) (j : nat) :
  is_high_surrogate u = false ->
  lone_surrogate_at (u :: rest) (S j) -> lone_surrogate_at rest j.
Proof.
  intros Hu [Hlt H]. split; [cbn [List.length] in Hlt; lia|].
  destruct H as [H|[Hlow Hprev]]; [left; exact H|].
  right. split; [exact Hlow|].
  destruct j as [|k]; [left; reflexivity|right].
  destruct Hprev as [Hprev|Hprev]; [discriminate|].
  cbn in Hprev |- *. rewrite Nat.sub_0_r. exact Hprev.
Qed.

Lemma lone_surrogate_after_pair (u l : Z) (rest : list Z) (j : nat) :
  is_low_surrogate l = true ->
  lone_surrogate_at (u :: l :: rest) (S (S j)) -> lone_surrogate_at rest j.
Proof.
  intros Hl [Hlt H]. split; [cbn [List.length] in Hlt; lia|].
  destruct H as [H|[Hlow Hprev]]; [left; exact H|].
  right. split; [exact Hlow|].
  destruct j as [|k]; [left; reflexivity|right].
  destruct Hprev as [Hprev|Hprev]; [discriminate|].
  cbn in Hprev |- *. rewrite Nat.sub_0_r. exact Hprev.
Qed.

Lemma chars_of_units_lone (n : nat) :
  forall (us : list Z) (i : nat),
    (List.length us <= n)%nat -> lone_surrogate_at us i ->
    chars_of_units us = Raise UnicodeDecodeError.
Proof.
  induction n as [|n IH]; intros us i Hlen Hlone.
  - destruct Hlone as [Hlt _]. lia.
  - destruct us as [|u rest]; [destruct Hlone as [Hlt _]; cbn in Hlt; lia|].
    cbn [List.length] in Hlen. cbn [chars_of_units].
    destruct (is_high_surrogate u) eqn:Hh.
    + destruct rest as [|l rest']; [reflexivity|].
      destruct (is_low_surrogate l) eqn:Hl; [|reflexivity].
      cbn [List.length] in Hlen.
      destruct i as [|[|j]].
      * destruct Hlone as [_ [[_ H]|[H _]]].
        -- cbn in H. congruence.
        -- cbn in H. destruct (high_not_low u Hh H).
      * destruct Hlone as [_ [[H _]|[_ [H|H]]]].
        -- cbn in H. destruct (high_not_low l H Hl).
        -- discriminate.
        -- cbn in H. congruence.
      * rewrite (IH rest' j); [reflexivity|lia|].
        apply (lone_surrogate_after_pair u l); assumption.
    + destruct (is_low_surrogate u) eqn:Hl; [reflexivity|].
      destruct i as [|j].
      * destruct Hlone as [_ [[H _]|[H _]]]; cbn in H; congruence.
      * rewrite (IH rest j); [reflexivity|lia|].
        apply (lone_surrogate_tail u); assumption.
Qed.

(* ================================================================== *)
(** * The claims *)
(* ================================================================== *)

(** C2. Collapse is the exact inverse of expand.  For every well-formed
    string (any code point up to [0x10FFFF], no surrogate), [add_surrogate]
    returns the expansion of the spec: each character below [0x10000] is
    kept and each code point from [0x10000] on is replaced by its two UTF-16
    code units; and [del_surrogate] of that result gives the string back,
    whatever the byte order of the machine. *)
Theorem del_surrogate_add_surrogate (native : ByteOrder) (s : pystr) :
  well_formed s ->
  add_surrogate s = Ok (expand s)
  /\ (t <- add_surrogate s ;; del_surrogate native t) = Ok s.
Proof.
  intros Hs.
  assert (Ha : add_surrogate s = Ok (expand s))
    by (apply add_surrogate_expand, well_formed_is_str, Hs).
  split; [exact Ha|].
  rewrite Ha. cbn [bind]. rewrite del_surrogate_units.
  rewrite units_below.
  - apply chars_of_units_expand, Hs.
  - clear Ha. induction Hs as [|c s [Hc _] _ IH]; [constructor|].
    unfold expand. cbn [flat_map]. fold (expand s).
    apply Forall_app. split; [|exact IH].
    unfold expand_char. destruct (Z.ltb_spec c 65536).
    + repeat constructor. assumption.
    + destruct (expand_char_pair_range c ltac:(lia)). repeat constructor; lia.
Qed.

Lemma del_surrogate_add_surrogate_witness :
  well_formed [72; 105; 0x1F600; 0xFFFF]
  /\ add_surrogate [72; 105; 0x1F600; 0xFFFF] = Ok [72; 105; 0xD83D; 0xDE00; 0xFFFF]
  /\ (t <- add_surrogate [72; 105; 0x1F600; 0xFFFF] ;; del_surrogate BigEndian t)
     = Ok [72; 105; 0x1F600; 0xFFFF].
Proof.
  assert (H : well_formed [72; 105; 0x1F600; 0xFFFF])
    by (repeat constructor; lia).
  split; [exact H|].
  exact (del_surrogate_add_surrogate BigEndian [72; 105; 0x1F600; 0xFFFF] H).
Defined.

(** Outside the well-formed strings the round trip can change the text: two
    characters that are a high and a low surrogate come back as the one
    character of the pair. *)
Example surrogate_characters_merge :
  (t <- add_surrogate [0xD83D; 0xDE00] ;; del_surrogate LittleEndian t)
  = Ok [0x1F600].
Proof. reflexivity. Qed.

(** C5. Lone-surrogate collapse failure.  For every sequence of UTF-16 code
    units in which some position holds a surrogate without its partner,
    [del_surrogate] raises [UnicodeDecodeError]: the unit is neither dropped
    nor passed through. *)
Theorem del_surrogate_lone_surrogate (native : ByteOrder) (us : list Z) (i : nat) :
  Forall (fun u => u < 0x10000) us ->
  lone_surrogate_at us i ->
  del_surrogate native us = Raise UnicodeDecodeError.
Proof.
  intros Hus Hlone. rewrite del_surrogate_units, units_below by exact Hus.
  apply (chars_of_units_lone (List.length us) us i); [lia|exact Hlone].
Qed.

Lemma del_surrogate_lone_surrogate_witness :
  del_surrogate LittleEndian [72; 0xD83D; 105] = Raise UnicodeDecodeError.
Proof.
  apply (del_surrogate_lone_surrogate LittleEndian [72; 0xD83D; 105] 1).
  - repeat constructor.
  - split; [cbn; lia|]. left. split; reflexivity.
Defined.

(** ** The outbound conversion *)

Lemma add_surrogate_total (s : pystr) : exists t, add_surrogate s = Ok t.
Proof.
  induction s as [|x s [t IH]]; [exists []; reflexivity|].
  cbn [add_surrogate]. rewrite IH.
  assert (H : exists p, add_surrogate_char x = Ok p).
  { destruct (Z.leb_spec x 1114111) as [Hle|Hgt].
    - eexists. apply add_surrogate_char_expand, Hle.
    - exists [x]. unfold add_surrogate_char.
      destruct (Z.leb_spec x 1114111); [lia|]. rewrite andb_false_r. reflexivity. }
  destruct H as [p Hp]. rewrite Hp. eexists. reflexivity.
Qed.

Lemma matrix_to_signal_plain (native : ByteOrder)
    (parse_html : pystr -> result SignalFormatString.t)
    (c : TextMessageEventContent) :
  msgtype c <> EMOTE ->
  format c <> Some HTML \/ truthy (formatted_body c) = false ->
  matrix_to_signal native parse_html c = (c, Ok (body c, [])).
Proof.
  intros Hm Hf. unfold matrix_to_signal.
  destruct c as [m b f fb]. cbn [msgtype body format formatted_body] in *.
  destruct m; try contradiction; f_equal;
    (destruct Hf as [Hf|Hf];
     [destruct f as [[|]|]; try contradiction; reflexivity
     |destruct fb as [[|x s]|]; try discriminate;
      destruct f as [[|]|]; reflexivity]).
Qed.

(** C1. Round trip of plain text.  For every body, [signal_to_matrix] of a
    message without mentions returns content with that body, no format and
    no formatted body; [matrix_to_signal] of that content returns the body
    and an empty mention list.  More generally [matrix_to_signal] of content
    without an HTML formatted body returns the plain body that the content
    has after the call and no mentions; unless the content is an emote, that
    is the body it came with and the content is not changed. *)
Theorem plain_text_round_trip (native : ByteOrder)
    (Puppet_get_by_address : Address.t -> option Puppet.t)
    (parse_html : pystr -> result SignalFormatString.t) (b : pystr) :
  let content :=
    {| msgtype := TEXT; body := b; format := None; formatted_body := None |} in
  signal_to_matrix native Puppet_get_by_address (MessageData.Build b []) = Ok content
  /\ matrix_to_signal native parse_html content = (content, Ok (b, []))
  /\ (forall c : TextMessageEventContent,
        format c <> Some HTML \/ truthy (formatted_body c) = false ->
        snd (matrix_to_signal native parse_html c)
        = Ok (body (fst (matrix_to_signal native parse_html c)), [])
        /\ (msgtype c <> EMOTE ->
            matrix_to_signal native parse_html c = (c, Ok (body c, [])))).
Proof.
  intros content. split; [|split].
  - unfold signal_to_matrix. cbn [MessageData.body MessageData.mentions].
    destruct (add_surrogate_total b) as [t Ht]. rewrite Ht. reflexivity.
  - reflexivity.
  - intros c Hf. split.
    + destruct c as [m cb f fb]. unfold matrix_to_signal.
      cbn [msgtype body format formatted_body fst snd] in *.
      destruct Hf as [Hf|Hf].
      * destruct f as [[|]|]; try contradiction;
          destruct m, fb as [[|x s]|]; reflexivity.
      * destruct fb as [[|x s]|]; try discriminate;
          destruct m, f as [[|]|]; reflexivity.
    + intros Hm. apply matrix_to_signal_plain; assumption.
Qed.

Lemma plain_text_round_trip_witness :
  matrix_to_signal LittleEndian (fun _ => Raise KeyError)
    {| msgtype := NOTICE; body := py "hi"; format := Some HTML;
       formatted_body := Some [] |}
  = ({| msgtype := NOTICE; body := py "hi"; format := Some HTML;
        formatted_body := Some [] |}, Ok (py "hi", [])).
Proof.
  apply (plain_text_round_trip LittleEndian (fun _ => None) (fun _ => Raise KeyError) []).
  - right. reflexivity.
  - discriminate.
Defined.

(** C8. Emote prefixing.  For content of type emote, [matrix_to_signal]
    puts ["/me "] before the plain body, and before the formatted body when
    there is one, before anything else: the parser is given the expansion of
    the prefixed formatted body, and without an HTML formatted body the
    prefixed plain body is returned.  For any other message type nothing is
    prefixed. *)
Theorem emote_prefixing (native : ByteOrder)
    (parse_html : pystr -> result SignalFormatString.t)
    (m : MessageType) (b : pystr) (f : option Format) (fb : option pystr) :
  let content := {| msgtype := m; body := b; format := f; formatted_body := fb |} in
  let prefixed :=
    {| msgtype := EMOTE; body := py "/me " ++ b; format := f;
       formatted_body :=
         if truthy fb then option_map (app (py "/me ")) fb else fb |} in
  let parsed_result (html : pystr) :=
    surrogated <- add_surrogate html ;;
    parsed <- parse_html surrogated ;;
    text <- del_surrogate native (SignalFormatString.text parsed) ;;
    Ok (text, SignalFormatString.entities parsed) in
  (m = EMOTE ->
     fst (matrix_to_signal native parse_html content) = prefixed
     /\ (forall html, f = Some HTML -> fb = Some html -> html <> [] ->
           snd (matrix_to_signal native parse_html content)
           = parsed_result (py "/me " ++ html))
     /\ (f <> Some HTML \/ truthy fb = false ->
           snd (matrix_to_signal native parse_html content)
           = Ok (py "/me " ++ b, [])))
  /\ (m <> EMOTE ->
        fst (matrix_to_signal native parse_html content) = content
        /\ (forall html, f = Some HTML -> fb = Some html -> html <> [] ->
              snd (matrix_to_signal native parse_html content) = parsed_result html)
        /\ (f <> Some HTML \/ truthy fb = false ->
              snd (matrix_to_signal native parse_html content) = Ok (b, []))).
Proof.
  intros content prefixed parsed_result. split.
  - intros ->. unfold matrix_to_signal, content, prefixed.
    cbn [msgtype body format formatted_body fst snd]. split; [|split].
    + destruct fb as [[|x s]|]; reflexivity.
    + intros html -> -> Hne. destruct html as [|x s]; [contradiction|]. reflexivity.
    + intros [Hf|Hf].
      * destruct fb as [[|x s]|]; destruct f as [[|]|];
          try contradiction; reflexivity.
      * destruct fb as [[|x s]|]; try discriminate; destruct f as [[|]|]; reflexivity.
  - intros Hm. split; [|split].
    + unfold matrix_to_signal, content. cbn [msgtype]. destruct m; try contradiction; reflexivity.
    + intros html -> -> Hne. destruct html as [|x s]; [contradiction|].
      unfold matrix_to_signal, content. cbn [msgtype].
      destruct m; try contradiction; reflexivity.
    + intros Hf. unfold content. rewrite matrix_to_signal_plain; [reflexivity|exact Hm|exact Hf].
Qed.

Lemma emote_prefixing_witness :
  matrix_to_signal LittleEndian (fun s => Ok (SignalFormatString.Build s []))
    {| msgtype := EMOTE; body := py "waves"; format := Some HTML;
       formatted_body := Some (py "<b>waves</b>") |}
  = ({| msgtype := EMOTE; body := py "/me waves"; format := Some HTML;
        formatted_body := Some (py "/me <b>waves</b>") |},
     Ok (py "/me <b>waves</b>", []))
  /\ snd (matrix_to_signal LittleEndian (fun s => Ok (SignalFormatString.Build s []))
            {| msgtype := TEXT; body := py "waves"; format := None;
               formatted_body := None |})
     = Ok (py "waves", []).
Proof.
  split.
  - destruct (emote_prefixing LittleEndian (fun s => Ok (SignalFormatString.Build s []))
                EMOTE (py "waves") (Some HTML) (Some (py "<b>waves</b>")))
      as [He _].
    destruct (He eq_refl) as [H1 [H2 _]].
    specialize (H2 (py "<b>waves</b>") eq_refl eq_refl ltac:(discriminate)).
    rewrite (surjective_pairing (matrix_to_signal _ _ _)), H1, H2. reflexivity.
  - destruct (emote_prefixing LittleEndian (fun s => Ok (SignalFormatString.Build s []))
                TEXT (py "waves") None None) as [_ Hn].
    destruct (Hn ltac:(discriminate)) as [_ [_ H3]].
    apply H3. left. discriminate.
Defined.

(** C10. [matrix_to_signal] changes its argument.  For content of type
    emote, the content seen by the caller after the call has the body
    ["/me "] followed by the old body, and the formatted body likewise when
    there was one; the other fields are kept, and the content differs from
    the one passed in, whatever the returned result is. *)
Theorem matrix_to_signal_mutates_emote (native : ByteOrder)
    (parse_html : pystr -> result SignalFormatString.t)
    (content : TextMessageEventContent) :
  msgtype content = EMOTE ->
  let after := fst (matrix_to_signal native parse_html content) in
  body after = py "/me " ++ body content
  /\ (forall html, formatted_body content = Some html -> html <> [] ->
        formatted_body after = Some (py "/me " ++ html))
  /\ (truthy (formatted_body content) = false ->
        formatted_body after = formatted_body content)
  /\ msgtype after = msgtype content
  /\ format after = format content
  /\ after <> content.
Proof.
  intros Hm after.
  assert (Hb : body after = py "/me " ++ body content).
  { unfold after, matrix_to_signal. rewrite Hm. cbn [fst].
    destruct (formatted_body content) as [[|x s]|]; reflexivity. }
  split; [exact Hb|]. split; [|split; [|split; [|split]]].
  - intros html Hfb Hne. unfold after, matrix_to_signal. rewrite Hm. cbn [fst].
    cbn [formatted_body]. rewrite Hfb.
    destruct html as [|x s]; [contradiction|]. reflexivity.
  - intros Hfb. unfold after, matrix_to_signal. rewrite Hm. cbn [fst].
    cbn [formatted_body].
    destruct (formatted_body content) as [[|x s]|]; try discriminate; reflexivity.
  - unfold after, matrix_to_signal. rewrite Hm. cbn [fst].
    cbn [formatted_body]. destruct (formatted_body content) as [[|x s]|]; reflexivity.
  - unfold after, matrix_to_signal. rewrite Hm. cbn [fst].
    cbn [formatted_body]. destruct (formatted_body content) as [[|x s]|]; reflexivity.
  - intros Heq. rewrite Heq in Hb.
    apply (f_equal (@List.length Z)) in Hb. rewrite length_app in Hb.
    cbn in Hb. lia.
Qed.

Lemma matrix_to_signal_mutates_emote_witness :
  body (fst (matrix_to_signal BigEndian (fun _ => Raise KeyError)
               {| msgtype := EMOTE; body := py "waves"; format := Some HTML;
                  formatted_body := Some (py "<b>waves</b>") |}))
  = py "/me waves".
Proof.
  apply (matrix_to_signal_mutates_emote BigEndian (fun _ => Raise KeyError)
           {| msgtype := EMOTE; body := py "waves"; format := Some HTML;
              formatted_body := Some (py "<b>waves</b>") |}).
  reflexivity.
Defined.

(** ** Format strings *)

Lemma wrap_spec (self : SignalFormatString.t) (prefix suffix : pystr) :
  SignalFormatString.wrap self prefix suffix
  = SignalFormatString.Build
      (prefix ++ SignalFormatString.text self ++ suffix)
      (map (shift_entity (len prefix)) (SignalFormatString.entities self)).
Proof. reflexivity. Qed.

Lemma format_wrap (self : SignalFormatString.t) (entity_type : EntityType)
    (kwargs : Kwargs) (prefix suffix : pystr) :
  wrap_marks entity_type kwargs = Some (prefix, suffix) ->
  SignalFormatString.format self entity_type kwargs
  = Ok (SignalFormatString.Build
          (prefix ++ SignalFormatString.text self ++ suffix)
          (map (shift_entity (len prefix)) (SignalFormatString.entities self))).
Proof.
  intros H. rewrite <- wrap_spec.
  destruct entity_type; cbn in H; try discriminate;
    unfold SignalFormatString.format.
  - injection H as <- <-. reflexivity.
  - injection H as <- <-. reflexivity.
  - injection H as <- <-. reflexivity.
  - destruct (kw_language kwargs) as [language|]; [|discriminate].
    injection H as <- <-. reflexivity.
  - injection H as <- <-. reflexivity.
  - destruct (kw_size kwargs) as [size|]; [|discriminate].
    injection H as <- <-. reflexivity.
Qed.

Lemma shift_entity_shift (a b : Z) (e : MentionEntity.t) :
  shift_entity b (shift_entity a e) = shift_entity (a + b) e.
Proof. unfold shift_entity. cbn. f_equal. lia. Qed.

(** C3. Markup wrap offset invariant.  One [format] call of a wrapping kind
    (bold, italic, strikethrough, inline code, preformatted, header) gives
    the text prefix + old text + suffix with the marks of that kind and
    moves every attached entity right by the length of the prefix.  After
    any sequence of such calls, each around the result of the one before,
    the text is the old text inside all the marks and the offset of every
    entity that was attached at the start is its old offset plus the sum of
    the lengths of all the prefixes; its length and user are kept. *)
Theorem wrap_offset_invariant :
  (forall (self : SignalFormatString.t) (entity_type : EntityType)
          (kwargs : Kwargs) (prefix suffix : pystr),
      wrap_marks entity_type kwargs = Some (prefix, suffix) ->
      SignalFormatString.format self entity_type kwargs
      = Ok (SignalFormatString.Build
              (prefix ++ SignalFormatString.text self ++ suffix)
              (map (shift_entity (len prefix)) (SignalFormatString.entities self))))
  /\ (forall (ops : list (EntityType * Kwargs)) (marks : list (pystr * pystr))
             (self : SignalFormatString.t),
         map (fun op => wrap_marks (fst op) (snd op)) ops = map Some marks ->
         format_all self ops
         = Ok (SignalFormatString.Build
                 (concat (rev (map fst marks)) ++ SignalFormatString.text self
                    ++ concat (map snd marks))
                 (map (shift_entity (prefix_total marks))
                      (SignalFormatString.entities self)))).
Proof.
  split; [exact format_wrap|].
  induction ops as [|[entity_type kwargs] ops IH]; intros marks self Hm.
  - destruct marks; [|discriminate]. destruct self as [t es].
    cbn. rewrite app_nil_r. f_equal. f_equal.
    rewrite <- (map_id es) at 1. apply map_ext. intros [u o l].
    unfold shift_entity. cbn. f_equal. lia.
  - destruct marks as [|[prefix suffix] marks]; [discriminate|].
    cbn [map fst snd] in Hm. injection Hm as Hop Hrest.
    cbn [format_all]. rewrite (format_wrap _ _ _ _ _ Hop). cbn [bind].
    rewrite (IH marks _ Hrest). cbn [SignalFormatString.text SignalFormatString.entities].
    f_equal. f_equal.
    + cbn [map fst snd rev concat]. rewrite concat_app. cbn [concat].
      rewrite app_nil_r, <- !app_assoc. reflexivity.
    + rewrite map_map. apply map_ext. intros e.
      rewrite shift_entity_shift. reflexivity.
Qed.

Lemma wrap_offset_invariant_witness :
  format_all
    (SignalFormatString.Build (py "Alice") [Mention.Build (Some 1%N) 0 5])
    [(BOLD, no_kwargs);
     (HEADER, {| kw_uuid := None; kw_url := None; kw_language := None;
                 kw_size := Some 2 |})]
  = Ok (SignalFormatString.Build (py "## **Alice**") [Mention.Build (Some 1%N) 5 5]).
Proof.
  destruct wrap_offset_invariant as [_ H].
  apply (H [(BOLD, no_kwargs);
            (HEADER, {| kw_uuid := None; kw_url := None; kw_language := None;
                        kw_size := Some 2 |})]
           [(py "**", py "**"); (py "## ", [])]
           (SignalFormatString.Build (py "Alice") [Mention.Build (Some 1%N) 0 5])).
  reflexivity.
Defined.

(** C9. An unresolvable pill degrades gracefully.  When the user id gives
    neither a user with a uuid nor a puppet, [user_pill_to_fstring] returns
    the format string as it was: same text, no entity added.  When it gives
    one, the text is kept and one mention entity is appended, at offset 0
    and as long as the text. *)
Theorem user_pill_to_fstring_spec
    (User_get_by_mxid : UserID -> option User.t)
    (Puppet_get_by_mxid : UserID -> option Puppet.t)
    (msg : SignalFormatString.t) (user_id : UserID) :
  ((forall user, User_get_by_mxid user_id = Some user -> User.uuid user = None) ->
   Puppet_get_by_mxid user_id = None ->
   MatrixParser.user_pill_to_fstring User_get_by_mxid Puppet_get_by_mxid msg user_id = Ok msg)
  /\ (forall uuid : option UUID,
        (exists user x, User_get_by_mxid user_id = Some user
                        /\ User.uuid user = Some x /\ uuid = Some x)
        \/ ((forall user, User_get_by_mxid user_id = Some user -> User.uuid user = None)
            /\ exists puppet, Puppet_get_by_mxid user_id = Some puppet
                              /\ uuid = Puppet.uuid puppet) ->
        MatrixParser.user_pill_to_fstring User_get_by_mxid Puppet_get_by_mxid msg user_id
        = Ok (SignalFormatString.Build
                (SignalFormatString.text msg)
                (SignalFormatString.entities msg
                   ++ [Mention.Build uuid 0 (len (SignalFormatString.text msg))]))).
Proof.
  unfold MatrixParser.user_pill_to_fstring. split.
  - intros Hu Hp. rewrite Hp.
    destruct (User_get_by_mxid user_id) as [user|]; [|reflexivity].
    rewrite (Hu user eq_refl). reflexivity.
  - intros uuid [(user & x & Hu & Hx & ->)|[Hu (puppet & Hp & ->)]].
    + rewrite Hu, Hx. reflexivity.
    + rewrite Hp. destruct (User_get_by_mxid user_id) as [user|]; [|reflexivity].
      rewrite (Hu user eq_refl). reflexivity.
Qed.

Lemma user_pill_to_fstring_spec_witness :
  MatrixParser.user_pill_to_fstring (fun _ => Some (User.Build None)) (fun _ => None)
    (SignalFormatString.Build (py "Carol") []) (py "@carol:example.org")
  = Ok (SignalFormatString.Build (py "Carol") [])
  /\ MatrixParser.user_pill_to_fstring (fun _ => Some (User.Build None)) (fun _ => Some bob)
       (SignalFormatString.Build (py "Bob") []) (py "@signal_2:example.org")
     = Ok (SignalFormatString.Build (py "Bob") [Mention.Build (Some 2%N) 0 3]).
Proof.
  split.
  - apply (user_pill_to_fstring_spec (fun _ => Some (User.Build None)) (fun _ => None)).
    + intros user H. injection H as <-. reflexivity.
    + reflexivity.
  - apply (proj2 (user_pill_to_fstring_spec (fun _ => Some (User.Build None))
                      (fun _ => Some bob) (SignalFormatString.Build (py "Bob") [])
                      (py "@signal_2:example.org")) (Some 2%N)).
    right. split.
    + intros user H. injection H as <-. reflexivity.
    + exists bob. split; reflexivity.
Defined.

(** ** Block quotes *)

Lemma join_at_text (separator : pystr) (items : list SignalFormatString.t) :
  forall pos,
    SignalFormatString.text (SignalFormatString.join_at pos items separator)
    = sep_join separator (map SignalFormatString.text items).
Proof.
  induction items as [|x rest IH]; intros pos; [reflexivity|].
  cbn [SignalFormatString.join_at map sep_join].
  destruct rest as [|y rest]; [reflexivity|].
  cbn [SignalFormatString.text]. rewrite IH. reflexivity.
Qed.

Lemma split_at_prepend_text (ents : list MentionEntity.t) (prefix : pystr)
    (parts : list pystr) :
  forall pos,
    map SignalFormatString.text
      (map (fun child => SignalFormatString.prepend child prefix)
           (SignalFormatString.split_at pos parts ents))
    = map (app prefix) parts.
Proof.
  induction parts as [|p ps IH]; intros pos; [reflexivity|].
  cbn [SignalFormatString.split_at map]. rewrite IH. reflexivity.
Qed.

Lemma sep_join_quote (t : pystr) :
  sep_join [10] (map (app (py "> ")) (str_split 10 t)) = quote_lines t.
Proof.
  unfold str_split, quote_lines.
  induction t as [|c t IH]; [reflexivity|].
  cbn [split_first flat_map].
  destruct (split_first 10 t) as [p ps].
  destruct (Z.eqb_spec c 10) as [->|Hc].
  - cbn [map sep_join] in IH |- *. rewrite IH. reflexivity.
  - cbn [map sep_join] in IH |- *.
    destruct ps as [|q ps].
    + cbn [map] in IH |- *.
      change (py "> " ++ c :: p) with (py "> " ++ [c] ++ p).
      change (py "> " ++ [c] ++ flat_map (fun c0 => if c0 =? 10 then 10 :: py "> " else [c0]) t)
        with ((py "> " ++ [c]) ++ flat_map (fun c0 => if c0 =? 10 then 10 :: py "> " else [c0]) t).
      apply app_inv_head in IH. rewrite <- IH. rewrite <- app_assoc. reflexivity.
    + cbn [map] in IH |- *.
      rewrite <- app_assoc in IH. apply app_inv_head in IH.
      rewrite <- IH. rewrite <- !app_assoc. reflexivity.
Qed.

Lemma blockquote_text (self : SignalFormatString.t) (kwargs : Kwargs) :
  exists r,
    SignalFormatString.format self BLOCKQUOTE kwargs = Ok r
    /\ SignalFormatString.text r = quote_lines (strip (SignalFormatString.text self)).
Proof.
  eexists. split; [reflexivity|].
  unfold SignalFormatString.join, SignalFormatString.split.
  rewrite join_at_text, split_at_prepend_text.
  apply sep_join_quote.
Qed.

Lemma trim_entity_inside (self : SignalFormatString.t) (u : option UUID) (o l : Z) :
  let removed :=
    len (SignalFormatString.text self) - len (lstrip (SignalFormatString.text self)) in
  In (Mention.Build u o l) (SignalFormatString.entities self) ->
  0 <= o - removed -> 0 <= l ->
  o - removed + l <= len (strip (SignalFormatString.text self)) ->
  In (Mention.Build u (o - removed) l)
     (SignalFormatString.entities (SignalFormatString.trim self)).
Proof.
  intros removed Hin Ho Hl Hend.
  unfold SignalFormatString.trim. cbn [SignalFormatString.entities].
  apply in_flat_map. exists (Mention.Build u o l). split; [exact Hin|].
  unfold SignalFormatString.trim_entity, MentionEntity.offset.
  cbn [Mention.start Mention.length Mention.uuid].
  fold removed. fold (strip (SignalFormatString.text self)).
  destruct (Z.leb_spec 0 (o - removed)); [|lia].
  destruct (Z.leb_spec 0 l); [|lia].
  destruct (Z.leb_spec (o - removed + l) (len (strip (SignalFormatString.text self))));
    [|lia].
  left. reflexivity.
Qed.

(** An entity inside line [k] of the split text ends up, after each line got
    its two-character prefix and the lines were joined again, moved right by
    two characters for each line up to and including its own. *)
Lemma join_split_entity (ents : list MentionEntity.t) (u : option UUID) (o l : Z) :
  In (Mention.Build u o l) ents -> 0 <= l ->
  forall (lines : list pystr) (p pos : Z) (k : nat) (line : pystr),
    nth_error lines k = Some line ->
    p + line_start lines k <= o ->
    o + l <= p + line_start lines k + len line ->
    In (Mention.Build u (o - p + pos + 2 * (Z.of_nat k + 1)) l)
       (SignalFormatString.entities
          (SignalFormatString.join_at pos
             (map (fun child => SignalFormatString.prepend child (py "> "))
                  (SignalFormatString.split_at p lines ents))
             [10])).
Proof.
  intros Hin Hl. induction lines as [|part ps IH]; intros p pos k line Hk Hlo Hhi.
  - destruct k; discriminate.
  - cbn [SignalFormatString.split_at map SignalFormatString.join_at].
    destruct k as [|k].
    + cbn in Hk. injection Hk as ->. cbn [line_start] in Hlo, Hhi.
      assert (Hhere :
        In (Mention.Build u (o - p + pos + 2 * (Z.of_nat 0 + 1)) l)
           (SignalFormatString.entities
              (SignalFormatString._offset_entities
                 (SignalFormatString.prepend
                    (SignalFormatString.Build line
                       (flat_map (SignalFormatString.segment_entity p (len line)) ents))
                    (py "> ")) pos))).
      { unfold SignalFormatString.prepend. unfold SignalFormatString._offset_entities.
        cbn [SignalFormatString.entities SignalFormatString.text].
        rewrite map_map. apply in_map_iff.
        exists (Mention.Build u (o - p) l). split.
        - unfold MentionEntity.set_offset, MentionEntity.offset. cbn. f_equal. lia.
        - apply in_flat_map. exists (Mention.Build u o l). split; [exact Hin|].
          unfold SignalFormatString.segment_entity, MentionEntity.offset.
          cbn [Mention.start Mention.length Mention.uuid].
          destruct (Z.leb_spec 0 (o - p)); [|lia].
          destruct (Z.leb_spec (o - p) (len line)); [|lia].
          cbn [andb]. left. f_equal. lia. }
      destruct (map _ (SignalFormatString.split_at (p + len line + 1) ps ents));
        cbn [SignalFormatString.entities]; [exact Hhere|].
      apply in_or_app. left. exact Hhere.
    + cbn [nth_error] in Hk. cbn [line_start] in Hlo, Hhi.
      specialize (IH (p + len part + 1)
                     (pos + len (py "> " ++ part) + len [10]) k line Hk
                     ltac:(lia) ltac:(lia)).
      destruct ps as [|part' ps]; [destruct k; discriminate|].
      cbn [SignalFormatString.split_at map] in IH |- *.
      cbn [SignalFormatString.prepend SignalFormatString.text SignalFormatString.entities].
      apply in_or_app. right.
      unfold SignalFormatString.prepend in IH. cbn [SignalFormatString.text] in IH.
      replace (o - p + pos + 2 * (Z.of_nat (S k) + 1))
        with (o - (p + len part + 1) + (pos + len (py "> " ++ part) + len [10])
              + 2 * (Z.of_nat k + 1)).
      * exact IH.
      * unfold len. rewrite length_app. cbn [List.length py map list_ascii_of_string].
        lia.
Qed.

Lemma line_start_nonneg (lines : list pystr) :
  forall k, 0 <= line_start lines k.
Proof.
  induction lines as [|q qs IH]; intros [|j]; cbn [line_start]; try lia.
  specialize (IH j). pose proof (len_nonneg q). lia.
Qed.

Lemma line_inside_text (t : pystr) :
  forall (k : nat) (line : pystr),
    nth_error (str_split 10 t) k = Some line ->
    line_start (str_split 10 t) k + len line <= len t.
Proof.
  unfold str_split. induction t as [|c t IH]; intros k line Hk.
  - cbn in Hk. destruct k as [|[|k]]; try discriminate.
    injection Hk as <-. cbn. lia.
  - cbn [split_first] in Hk |- *. destruct (split_first 10 t) as [p ps].
    rewrite len_cons.
    destruct (c =? 10).
    + destruct k as [|k].
      * injection Hk as <-. cbn [line_start]. rewrite (@len_nil Z).
        pose proof (len_nonneg t). lia.
      * cbn [nth_error] in Hk. specialize (IH k line Hk).
        cbn [line_start] in *. rewrite (@len_nil Z). lia.
    + destruct k as [|k].
      * injection Hk as <-. specialize (IH 0%nat p eq_refl).
        cbn [line_start] in *. rewrite len_cons. lia.
      * cbn [nth_error] in Hk.
        specialize (IH (S k) line Hk).
        cbn [line_start] in *. rewrite len_cons. lia.
Qed.

(** C7, as the code has it.  Applying the blockquote kind first strips the
    whitespace at both ends of the text, then cuts it at every newline, puts
    ["> "] before each line and joins the lines with newlines: the new text
    is the stripped text with ["> "] at its start and after each of its
    newlines.  An entity that lies inside line [k] of the stripped text
    keeps its length and moves left by the number of characters stripped at
    the start and right by two characters for each of the lines [0 .. k]. *)
Theorem blockquote_rule (self : SignalFormatString.t) (kwargs : Kwargs) :
  exists r,
    SignalFormatString.format self BLOCKQUOTE kwargs = Ok r
    /\ SignalFormatString.text r = quote_lines (strip (SignalFormatString.text self))
    /\ (forall (u : option UUID) (o l : Z) (k : nat) (line : pystr),
          let removed :=
            len (SignalFormatString.text self)
            - len (lstrip (SignalFormatString.text self)) in
          let lines := str_split 10 (strip (SignalFormatString.text self)) in
          In (Mention.Build u o l) (SignalFormatString.entities self) ->
          0 <= l ->
          nth_error lines k = Some line ->
          line_start lines k <= o - removed ->
          o - removed + l <= line_start lines k + len line ->
          In (Mention.Build u (o - removed + 2 * (Z.of_nat k + 1)) l)
             (SignalFormatString.entities r)).
Proof.
  destruct (blockquote_text self kwargs) as [r [Hr Ht]].
  exists r. split; [exact Hr|]. split; [exact Ht|].
  intros u o l k line removed lines Hin Hl Hk Hlo Hhi.
  cbn in Hr. injection Hr as <-.
  unfold SignalFormatString.join, SignalFormatString.split.
  pose proof (line_start_nonneg lines k) as Hs.
  pose proof (line_inside_text _ k line Hk) as Hlen. fold lines in Hlen.
  pose proof (trim_entity_inside self u o l Hin ltac:(fold removed; lia) Hl
                ltac:(fold removed; lia)) as Htrim.
  fold removed in Htrim.
  pose proof (join_split_entity _ u (o - removed) l Htrim Hl lines 0 0 k line Hk
                ltac:(lia) ltac:(lia)) as H.
  replace (o - removed - 0 + 0 + 2 * (Z.of_nat k + 1))
    with (o - removed + 2 * (Z.of_nat k + 1)) in H by lia.
  exact H.
Qed.

Lemma blockquote_rule_witness :
  exists r,
    SignalFormatString.format
      (SignalFormatString.Build (py "  hi @Bob" ++ [10] ++ py "bye ")
                                [Mention.Build (Some 2%N) 5 4])
      BLOCKQUOTE no_kwargs = Ok r
    /\ SignalFormatString.text r = py "> hi @Bob" ++ [10] ++ py "> bye"
    /\ In (Mention.Build (Some 2%N) 5 4) (SignalFormatString.entities r).
Proof.
  destruct (blockquote_rule
              (SignalFormatString.Build (py "  hi @Bob" ++ [10] ++ py "bye ")
                                        [Mention.Build (Some 2%N) 5 4])
              no_kwargs) as [r [Hr [Ht He]]].
  exists r. split; [exact Hr|]. split; [rewrite Ht; reflexivity|].
  apply (He (Some 2%N) 5 4 0%nat (py "hi @Bob")).
  - left. reflexivity.
  - lia.
  - reflexivity.
  - vm_compute. discriminate.
  - vm_compute. discriminate.
Defined.

(** C7 as it is worded fails: the text is stripped before it is cut into
    lines, so the result is not the old text with ["> "] put in. *)
Lemma blockquote_rule_counterexample :
  SignalFormatString.format (SignalFormatString.Build (py " a") []) BLOCKQUOTE no_kwargs
  = Ok (SignalFormatString.Build (py "> a") [])
  /\ quote_lines (py " a") = py ">  a"
  /\ py "> a" <> quote_lines (py " a").
Proof. split; [reflexivity|]. split; [reflexivity|]. discriminate. Qed.

(** ** Slices *)

Lemma py_slice_mid {A : Type} (a b c : list A) :
  py_slice (a ++ b ++ c) (len a) (Some (len a + len b)) = b.
Proof.
  unfold py_slice, slice_index. rewrite !len_app.
  pose proof (len_nonneg a). pose proof (len_nonneg b). pose proof (len_nonneg c).
  destruct (Z.ltb_spec (len a) 0); [lia|].
  destruct (Z.ltb_spec (len a + len b) 0); [lia|].
  rewrite !Z.min_l by lia.
  replace (len a + len b - len a) with (len b) by lia.
  unfold len. rewrite !Nat2Z.id.
  rewrite skipn_app, skipn_all, Nat.sub_diag. cbn [skipn app].
  rewrite firstn_app, firstn_all, Nat.sub_diag. cbn [firstn]. apply app_nil_r.
Qed.

Lemma py_slice_tail {A : Type} (a c : list A) :
  py_slice (a ++ c) (len a) None = c.
Proof.
  unfold py_slice, slice_index. rewrite !len_app.
  pose proof (len_nonneg a). pose proof (len_nonneg c).
  destruct (Z.ltb_spec (len a) 0); [lia|].
  rewrite Z.min_l by lia.
  replace (len a + len c - len a) with (len c) by lia.
  unfold len. rewrite !Nat2Z.id.
  rewrite skipn_app, skipn_all, Nat.sub_diag. cbn [skipn app].
  apply firstn_all.
Qed.

Lemma Forall_firstn' {A : Type} (P : A -> Prop) (n : nat) :
  forall s, Forall P s -> Forall P (firstn n s).
Proof.
  induction n as [|n IH]; intros s H; [constructor|].
  destruct H as [|x s Hx Hs]; [constructor|].
  cbn [firstn]. constructor; [exact Hx|apply IH, Hs].
Qed.

Lemma Forall_skipn' {A : Type} (P : A -> Prop) (n : nat) :
  forall s, Forall P s -> Forall P (skipn n s).
Proof.
  induction n as [|n IH]; intros s H; [exact H|].
  destruct H as [|x s Hx Hs]; [constructor|].
  cbn [skipn]. apply IH, Hs.
Qed.

Lemma Forall_py_slice {A : Type} (P : A -> Prop) (s : list A) (a : Z) (b : option Z) :
  Forall P s -> Forall P (py_slice s a b).
Proof.
  intros H. unfold py_slice. apply Forall_firstn', Forall_skipn', H.
Qed.

(** ** Expansion, escaping and well-formed strings *)

Lemma expand_app (a b : pystr) : expand (a ++ b) = expand a ++ expand b.
Proof. apply flat_map_app. Qed.

Lemma expand_below (s : pystr) :
  Forall (fun c => c < 0x10000) s -> expand s = s.
Proof. intros H. rewrite <- units_expand. apply units_below, H. Qed.

Lemma expand_is_below (s : pystr) :
  is_str s -> Forall (fun c => c < 0x10000) (expand s).
Proof.
  induction 1 as [|c s Hc _ IH]; [constructor|].
  unfold expand. cbn [flat_map]. fold (expand s).
  apply Forall_app. split; [|exact IH].
  unfold expand_char. destruct (Z.ltb_spec c 65536).
  - repeat constructor. assumption.
  - destruct (expand_char_pair_range c ltac:(lia)). repeat constructor; lia.
Qed.

Lemma expand_idem (s : pystr) : is_str s -> expand (expand s) = expand s.
Proof. intros H. apply expand_below, expand_is_below, H. Qed.

Lemma well_formed_app (a b : pystr) :
  well_formed a -> well_formed b -> well_formed (a ++ b).
Proof. intros Ha Hb. apply Forall_app. split; assumption. Qed.

Lemma below_surrogates_ok (c : Z) :
  0 <= c < 0xD800 -> 0 <= c <= 0x10FFFF /\ is_surrogate c = false.
Proof.
  intros Hc. split; [lia|]. unfold is_surrogate.
  destruct (Z.leb_spec 55296 c); [lia|]. reflexivity.
Qed.

(** An ASCII literal is well formed. *)
Lemma py_well_formed (s : string) : well_formed (py s).
Proof.
  unfold py. induction s as [|a s IH]; [constructor|].
  cbn [list_ascii_of_string map]. constructor; [|exact IH].
  apply below_surrogates_ok. pose proof (N_ascii_bounded a). lia.
Qed.

Lemma html_escape_char_well_formed (c : Z) :
  0 <= c <= 0x10FFFF /\ is_surrogate c = false ->
  well_formed (html_escape_char c).
Proof.
  intros Hc. unfold html_escape_char.
  repeat match goal with
         | |- context [if ?b then _ else _] => destruct b
         end;
    try apply py_well_formed.
  constructor; [exact Hc|constructor].
Qed.

Lemma html_escape_well_formed (s : pystr) :
  well_formed s -> well_formed (html_escape s).
Proof.
  induction 1 as [|c s Hc _ IH]; [constructor|].
  unfold html_escape. cbn [flat_map].
  apply well_formed_app; [apply html_escape_char_well_formed, Hc|exact IH].
Qed.

Lemma html_escape_app (a b : pystr) :
  html_escape (a ++ b) = html_escape a ++ html_escape b.
Proof. apply flat_map_app. Qed.

(** Escaping looks at five ASCII characters only, so it does not matter
    whether it is done before or after the expansion. *)
Lemma html_escape_expand (s : pystr) :
  is_str s -> html_escape (expand s) = expand (html_escape s).
Proof.
  induction 1 as [|c s Hc _ IH]; [reflexivity|].
  unfold expand at 1. unfold html_escape at 2. cbn [flat_map].
  fold (expand s). fold (html_escape s).
  rewrite html_escape_app, expand_app, IH. f_equal.
  unfold expand_char at 1. destruct (Z.ltb_spec c 65536) as [Hlt|Hge].
  - unfold html_escape. cbn [flat_map]. rewrite app_nil_r.
    unfold html_escape_char.
    repeat match goal with
           | |- context [if ?b then _ else _] => destruct b
           end; try reflexivity.
    unfold expand. cbn [flat_map]. unfold expand_char.
    destruct (Z.ltb_spec c 65536); [reflexivity|lia].
  - destruct (expand_char_pair_range c ltac:(lia)) as [Hh Hl].
    assert (He : html_escape_char c = [c]).
    { unfold html_escape_char.
      destruct (Z.eqb_spec c 38); [lia|]. destruct (Z.eqb_spec c 60); [lia|].
      destruct (Z.eqb_spec c 62); [lia|]. destruct (Z.eqb_spec c 34); [lia|].
      destruct (Z.eqb_spec c 39); [lia|]. reflexivity. }
    rewrite He. unfold expand at 1. cbn [flat_map]. rewrite app_nil_r.
    unfold expand_char. destruct (Z.ltb_spec c 65536); [lia|].
    unfold html_escape. cbn [flat_map]. rewrite app_nil_r.
    unfold html_escape_char.
    repeat match goal with
           | |- context [?x =? ?y] => destruct (Z.eqb_spec x y); [lia|]
           end.
    reflexivity.
Qed.

Lemma mention_anchor_well_formed (mxid name : pystr) :
  well_formed mxid -> well_formed name -> well_formed (mention_anchor mxid name).
Proof.
  intros Hm Hn. unfold mention_anchor.
  repeat (apply well_formed_app; try assumption; try apply py_well_formed);
    (constructor; [apply below_surrogates_ok; lia|constructor]).
Qed.

Lemma mention_anchor_expand (mxid name : pystr) :
  is_str mxid -> is_str name ->
  expand (mention_anchor mxid (expand name)) = expand (mention_anchor mxid name).
Proof.
  intros Hm Hn. unfold mention_anchor.
  rewrite !expand_app. rewrite (expand_idem name Hn). reflexivity.
Qed.

(** ** The mention loop on a segmented body *)

Section InboundProofs.

Variable native : ByteOrder.
Variable directory : Address.t -> option Puppet.t.

Lemma mention_loop_layout (segs : list Segment) :
  Forall (segment_ok directory) segs ->
  forall (pre rest : pystr) (text_chunks html_chunks : list pystr),
    mention_loop directory
      (pre ++ expand (concat (map (fun sg => literal sg ++ span sg) segs)) ++ rest)
      (layout (len pre) segs) (len pre) text_chunks html_chunks
    = Ok (len pre + utf16_len (concat (map (fun sg => literal sg ++ span sg) segs)),
          text_chunks
            ++ flat_map (fun sg => [expand (literal sg);
                                    expand (display_name (puppet sg))]) segs,
          html_chunks
            ++ flat_map (fun sg => [html_escape (expand (literal sg));
                                    mention_anchor (Puppet.mxid (puppet sg))
                                      (expand (display_name (puppet sg)))]) segs).
Proof.
  induction 1 as [|sg segs (Hdir & HL & HS & Hname & Hmxid) _ IH];
    intros pre rest text_chunks html_chunks.
  - cbn [map concat layout mention_loop flat_map]. unfold utf16_len.
    cbn [expand flat_map]. rewrite len_nil, Z.add_0_r, !app_nil_r. reflexivity.
  - cbn [map concat layout mention_loop flat_map].
    cbn [Mention.start Mention.length Mention.uuid].
    rewrite Hdir. unfold display_name in *.
    rewrite (add_surrogate_expand _ (well_formed_is_str _ Hname)). cbn [bind].
    rewrite !expand_app, <- !app_assoc. unfold utf16_len.
    rewrite !py_slice_mid.
    set (C := concat (map (fun sg0 => literal sg0 ++ span sg0) segs)).
    specialize (IH (pre ++ expand (literal sg) ++ expand (span sg)) rest
                   ((text_chunks ++ [expand (literal sg)])
                      ++ [expand (or_else (Puppet.name (puppet sg))
                                          (Puppet.mxid (puppet sg)))])
                   ((html_chunks ++ [html_escape (expand (literal sg))])
                      ++ [mention_anchor (Puppet.mxid (puppet sg))
                            (expand (or_else (Puppet.name (puppet sg))
                                             (Puppet.mxid (puppet sg))))])).
    fold C in IH. rewrite !len_app in IH. rewrite <- !app_assoc in IH.
    unfold utf16_len in IH.
    replace (len pre + len (expand (literal sg)) + len (expand (span sg)))
      with (len pre + (len (expand (literal sg)) + len (expand (span sg)))) by lia.
    refine (eq_trans IH _). rewrite !expand_app, !len_app. cbn [app].
    f_equal. f_equal. f_equal. lia.
Qed.

End InboundProofs.

Section SubstitutionProofs.

Variable native : ByteOrder.
Variable directory : Address.t -> option Puppet.t.

Lemma body_of_well_formed (segs : list Segment) (tail : pystr) :
  Forall (segment_ok directory) segs -> well_formed tail ->
  well_formed (body_of segs tail).
Proof.
  intros Hsegs Htail. unfold body_of. apply well_formed_app; [|exact Htail].
  induction Hsegs as [|sg segs (_ & HL & HS & _) _ IH]; [constructor|].
  cbn [map concat]. repeat apply well_formed_app; assumption.
Qed.

Lemma plain_of_well_formed (segs : list Segment) (tail : pystr) :
  Forall (segment_ok directory) segs -> well_formed tail ->
  well_formed (plain_of segs tail).
Proof.
  intros Hsegs Htail. unfold plain_of. apply well_formed_app; [|exact Htail].
  induction Hsegs as [|sg segs (_ & HL & _ & HN & _) _ IH]; [constructor|].
  cbn [map concat]. repeat apply well_formed_app; assumption.
Qed.

Lemma html_of_well_formed (segs : list Segment) (tail : pystr) :
  Forall (segment_ok directory) segs -> well_formed tail ->
  well_formed (html_of segs tail).
Proof.
  intros Hsegs Htail. unfold html_of.
  apply well_formed_app; [|apply html_escape_well_formed, Htail].
  induction Hsegs as [|sg segs (_ & HL & _ & HN & HM) _ IH]; [constructor|].
  cbn [map concat]. apply well_formed_app; [apply well_formed_app|exact IH].
  - apply html_escape_well_formed, HL.
  - apply mention_anchor_well_formed; assumption.
Qed.

Lemma text_chunks_expand (segs : list Segment) :
  concat (flat_map (fun sg => [expand (literal sg);
                               expand (display_name (puppet sg))]) segs)
  = expand (concat (map (fun sg => literal sg ++ display_name (puppet sg)) segs)).
Proof.
  induction segs as [|sg segs IH]; [reflexivity|].
  cbn [flat_map map concat app]. rewrite IH, !expand_app, <- app_assoc. reflexivity.
Qed.

Lemma html_chunks_expand (segs : list Segment) :
  Forall (segment_ok directory) segs ->
  expand (concat (flat_map
                    (fun sg => [html_escape (expand (literal sg));
                                mention_anchor (Puppet.mxid (puppet sg))
                                  (expand (display_name (puppet sg)))]) segs))
  = expand (concat (map (fun sg => html_escape (literal sg)
                                     ++ mention_anchor (Puppet.mxid (puppet sg))
                                          (display_name (puppet sg))) segs)).
Proof.
  induction 1 as [|sg segs (_ & HL & _ & HN & HM) _ IH]; [reflexivity|].
  cbn [flat_map map concat app]. rewrite !expand_app, IH.
  rewrite (html_escape_expand _ (well_formed_is_str _ HL)).
  rewrite expand_idem
    by (apply well_formed_is_str, html_escape_well_formed, HL).
  rewrite mention_anchor_expand by (apply well_formed_is_str; assumption).
  rewrite <- app_assoc. reflexivity.
Qed.

(** The conversion of a body given by its pieces: before each mention a
    literal piece, then the piece that the mention covers, and a tail; the
    mentions carry the UTF-16 offsets and lengths of the covered pieces. *)
Lemma mention_substitution_segments (segs : list Segment) (tail : pystr) :
  segs <> [] ->
  Forall (segment_ok directory) segs ->
  well_formed tail ->
  signal_to_matrix native directory
    (MessageData.Build (body_of segs tail) (layout 0 segs))
  = Ok {| msgtype := TEXT; body := plain_of segs tail;
          format := Some HTML; formatted_body := Some (html_of segs tail) |}.
Proof.
  intros Hne Hsegs Htail.
  pose proof (body_of_well_formed segs tail Hsegs Htail) as Hbody.
  unfold signal_to_matrix. cbn [MessageData.body MessageData.mentions].
  rewrite (add_surrogate_expand _ (well_formed_is_str _ Hbody)). cbn [bind].
  remember (layout 0 segs) as ms eqn:E.
  destruct ms as [|m ms]; [destruct segs; [contradiction|discriminate]|].
  rewrite E. clear E m ms.
  set (C := concat (map (fun sg => literal sg ++ span sg) segs)).
  assert (Hb : expand (body_of segs tail) = expand C ++ expand tail)
    by (unfold body_of; apply expand_app).
  rewrite Hb.
  pose proof (mention_loop_layout directory segs Hsegs [] (expand tail) [] []) as Hloop.
  fold C in Hloop. cbn [app] in Hloop. rewrite len_nil in Hloop.
  rewrite Hloop. cbn [bind]. unfold utf16_len.
  rewrite Z.add_0_l, py_slice_tail. unfold str_join.
  rewrite !concat_app. cbn [concat]. rewrite !app_nil_r.
  rewrite (del_surrogate_of_units native _ (plain_of segs tail)).
  - cbn [bind].
    rewrite (del_surrogate_of_units native _ (html_of segs tail)); [reflexivity| |].
    + apply html_of_well_formed; assumption.
    + rewrite units_expand. unfold html_of.
      rewrite !expand_app, html_chunks_expand by exact Hsegs.
      rewrite (html_escape_expand _ (well_formed_is_str _ Htail)).
      rewrite expand_idem
        by (apply well_formed_is_str, html_escape_well_formed, Htail).
      reflexivity.
  - apply plain_of_well_formed; assumption.
  - rewrite units_expand, text_chunks_expand. unfold plain_of.
    rewrite <- expand_app. apply expand_idem.
    apply well_formed_is_str.
    exact (plain_of_well_formed segs tail Hsegs Htail).
Qed.

End SubstitutionProofs.

Lemma well_formedb_ok (s : pystr) : well_formedb s = true -> well_formed s.
Proof.
  unfold well_formedb, well_formed. rewrite forallb_forall, Forall_forall.
  intros H c Hc. specialize (H c Hc).
  apply andb_true_iff in H. destruct H as [H Hs].
  apply andb_true_iff in H. destruct H as [H0 H1].
  apply negb_true_iff in Hs. split; [lia|exact Hs].
Qed.

Lemma bmpb_ok (s : pystr) : bmpb s = true -> bmp s.
Proof.
  unfold bmpb, bmp. rewrite forallb_forall, Forall_forall.
  intros H c Hc. specialize (H c Hc).
  apply andb_true_iff in H. destruct H as [H Hs].
  apply andb_true_iff in H. destruct H as [H0 H1].
  apply negb_true_iff in Hs. split; [lia|exact Hs].
Qed.

Lemma utf16_len_pos (s : pystr) : s <> [] -> 0 < utf16_len s.
Proof.
  destruct s as [|c s]; [contradiction|]. intros _.
  unfold utf16_len, expand. cbn [flat_map]. rewrite len_app.
  pose proof (len_nonneg (flat_map expand_char s)).
  unfold expand_char. destruct (c <? 65536); unfold len in *; cbn [List.length]; lia.
Qed.

(** The mentions laid out over a segmented body are in bounds, sorted and
    do not overlap. *)
Lemma layout_ordered (tail : pystr) (segs : list Segment) :
  Forall (fun sg => span sg <> []) segs ->
  forall pos,
    mentions_ordered pos (layout pos segs) (pos + utf16_len (body_of segs tail)).
Proof.
  induction 1 as [|sg segs Hs _ IH]; intros pos.
  - cbn [layout mentions_ordered]. unfold utf16_len. pose proof (len_nonneg (expand (body_of [] tail))). lia.
  - cbn [layout mentions_ordered Mention.start Mention.length].
    pose proof (utf16_len_pos _ Hs).
    assert (0 <= utf16_len (literal sg)) by apply len_nonneg.
    split; [lia|]. split; [assumption|].
    specialize (IH (pos + utf16_len (literal sg) + utf16_len (span sg))).
    replace (pos + utf16_len (body_of (sg :: segs) tail))
      with (pos + utf16_len (literal sg) + utf16_len (span sg)
            + utf16_len (body_of segs tail)); [exact IH|].
    unfold utf16_len, body_of. cbn [map concat].
    rewrite <- !app_assoc, !expand_app, !len_app. lia.
Qed.

(** An example in full: two mentions, text to escape and a character
    outside the BMP. *)
Example mention_substitution_example :
  signal_to_matrix BigEndian example_directory
    (MessageData.Build (py "Hi @A & @B <" ++ [0x1F600])
       [Mention.Build (Some 1%N) 3 2; Mention.Build (Some 2%N) 8 2])
  = Ok {| msgtype := TEXT;
          body := py "Hi Alice & @signal_2:example.org <" ++ [0x1F600];
          format := Some HTML;
          formatted_body :=
            Some (py "Hi <a href=" ++ [34] ++ py "https://matrix.to/#/@signal_1:example.org"
                    ++ [34] ++ py ">Alice</a> &amp; <a href=" ++ [34]
                    ++ py "https://matrix.to/#/@signal_2:example.org" ++ [34]
                    ++ py ">@signal_2:example.org</a> &lt;" ++ [0x1F600]) |}.
Proof.
  apply (mention_substitution_segments BigEndian example_directory
           [ {| literal := py "Hi "; span := py "@A"; who := Some 1%N; puppet := alice |};
             {| literal := py " & "; span := py "@B"; who := Some 2%N; puppet := bob |} ]
           (py " <" ++ [0x1F600])).
  - discriminate.
  - apply Forall_cons; [|apply Forall_cons; [|apply Forall_nil]];
      unfold segment_ok; repeat split;
      apply well_formedb_ok; vm_compute; reflexivity.
  - apply well_formedb_ok. vm_compute. reflexivity.
Qed.

(** ** Ordered, aligned mentions cut the body into pieces *)

Lemma firstn_add {A : Type} (k d : nat) :
  forall s : list A, firstn (k + d) s = firstn k s ++ firstn d (skipn k s).
Proof.
  induction k as [|k IH]; intros s; [reflexivity|].
  destruct s as [|x s]; [cbn; rewrite firstn_nil; reflexivity|].
  cbn [Nat.add firstn skipn app]. rewrite IH. reflexivity.
Qed.

Lemma utf16_len_app (a b : pystr) : utf16_len (a ++ b) = utf16_len a + utf16_len b.
Proof. unfold utf16_len. rewrite expand_app. apply len_app. Qed.

Lemma utf16_len_firstn_lt (body : pystr) (k1 k2 : nat) :
  (k1 < k2 <= List.length body)%nat ->
  utf16_len (firstn k1 body) < utf16_len (firstn k2 body).
Proof.
  intros Hk. replace k2 with (k1 + (k2 - k1))%nat by lia.
  rewrite firstn_add, utf16_len_app.
  assert (H : firstn (k2 - k1) (skipn k1 body) <> []).
  { intros E. apply (f_equal (@List.length Z)) in E.
    rewrite length_firstn, length_skipn in E. cbn in E. lia. }
  pose proof (utf16_len_pos _ H). lia.
Qed.

Lemma char_boundary_skipn (body : pystr) (k : nat) (o : Z) :
  (k <= List.length body)%nat ->
  char_boundary body o ->
  utf16_len (firstn k body) <= o ->
  char_boundary (skipn k body) (o - utf16_len (firstn k body)).
Proof.
  intros Hk (j & Hj & Ho) Hle.
  assert (Hkj : (k <= j)%nat).
  { destruct (Nat.le_gt_cases k j) as [H|H]; [exact H|].
    pose proof (utf16_len_firstn_lt body j k ltac:(lia)). lia. }
  exists (j - k)%nat. split; [rewrite length_skipn; lia|].
  replace j with (k + (j - k))%nat in Ho by lia.
  rewrite firstn_add, utf16_len_app in Ho. lia.
Qed.

Lemma mentions_ordered_starts (ms : list Mention.t) :
  forall pos n, mentions_ordered pos ms n ->
    Forall (fun m => pos <= Mention.start m /\ 0 < Mention.length m) ms.
Proof.
  induction ms as [|m ms IH]; intros pos n H; [constructor|].
  cbn [mentions_ordered] in H. destruct H as (H1 & H2 & H3).
  constructor; [split; assumption|].
  specialize (IH _ _ H3). revert IH. apply Forall_impl. intros m' Hm'. lia.
Qed.

Section SegmentationProofs.

Variable native : ByteOrder.
Variable directory : Address.t -> option Puppet.t.

Lemma segmentation_exists (ms : list Mention.t) :
  forall (body : pystr) (pos : Z),
    well_formed body ->
    mentions_ordered pos ms (pos + utf16_len body) ->
    Forall (aligned body pos) ms ->
    Forall (resolvable directory) ms ->
    exists segs tail,
      body = body_of segs tail /\ ms = layout pos segs
      /\ Forall (segment_ok directory) segs /\ well_formed tail.
Proof.
  induction ms as [|m ms IH]; intros body pos Hwf Hord Hal Hres.
  - exists [], body. repeat split; [constructor|exact Hwf].
  - cbn [mentions_ordered] in Hord. destruct Hord as (Hstart & Hlen & Hord).
    inversion Hal as [|? ? [(k1 & Hk1 & Ha) (k2 & Hk2 & Hb)] Hal']; subst.
    inversion Hres as [|? ? (p & Hp & Hname & Hmxid) Hres']; subst.
    assert (Hk : (k1 < k2)%nat).
    { destruct (Nat.lt_ge_cases k1 k2) as [H|H]; [exact H|].
      destruct (Nat.eq_dec k1 k2) as [->|Hne]; [lia|].
      pose proof (utf16_len_firstn_lt body k2 k1 ltac:(lia)). lia. }
    set (lit := firstn k1 body) in *.
    set (sp := firstn (k2 - k1) (skipn k1 body)).
    assert (Hsplit : firstn k2 body = lit ++ sp).
    { unfold lit, sp. rewrite <- firstn_add. f_equal. lia. }
    assert (Hbody : body = lit ++ sp ++ skipn k2 body).
    { rewrite app_assoc, <- Hsplit. symmetry. apply firstn_skipn. }
    assert (Hsp : utf16_len sp = Mention.length m).
    { rewrite Hsplit, utf16_len_app in Hb. lia. }
    assert (Hulen : utf16_len body
                    = utf16_len lit + utf16_len sp + utf16_len (skipn k2 body)).
    { rewrite Hbody at 1. rewrite !utf16_len_app. lia. }
    destruct (IH (skipn k2 body) (Mention.start m + Mention.length m))
      as (segs & tail & Hrest & Hms & Hok & Htail).
    + apply Forall_skipn', Hwf.
    + replace (Mention.start m + Mention.length m + utf16_len (skipn k2 body))
        with (pos + utf16_len body) by lia. exact Hord.
    + pose proof (mentions_ordered_starts _ _ _ Hord) as Hstarts.
      apply Forall_forall. intros m' Hin.
      pose proof (proj1 (Forall_forall _ _) Hal' m' Hin) as [Hc1 Hc2].
      pose proof (proj1 (Forall_forall _ _) Hstarts m' Hin) as [Hge Hpos].
      assert (Hk2' : utf16_len (firstn k2 body)
                     = Mention.start m + Mention.length m - pos) by lia.
      split.
      * replace (Mention.start m' - (Mention.start m + Mention.length m))
          with (Mention.start m' - pos - utf16_len (firstn k2 body)) by lia.
        apply char_boundary_skipn; [exact Hk2|exact Hc1|lia].
      * replace (Mention.start m' + Mention.length m'
                 - (Mention.start m + Mention.length m))
          with (Mention.start m' + Mention.length m' - pos
                - utf16_len (firstn k2 body)) by lia.
        apply char_boundary_skipn; [exact Hk2|exact Hc2|lia].
    + exact Hres'.
    + exists ({| literal := lit; span := sp; who := Mention.uuid m; puppet := p |} :: segs),
             tail.
      split; [|split; [|split]].
      * unfold body_of in *. cbn [map concat literal span].
        rewrite <- !app_assoc. rewrite <- Hrest. exact Hbody.
      * cbn [layout literal span who]. rewrite Hsp.
        replace (pos + utf16_len lit) with (Mention.start m) by lia.
        rewrite <- Hms. destruct m; reflexivity.
      * constructor; [|exact Hok]. unfold segment_ok. cbn [literal span who puppet].
        repeat split; try assumption.
        -- apply Forall_firstn', Hwf.
        -- apply Forall_firstn', Forall_skipn', Hwf.
      * exact Htail.
Qed.

(** C4, as the code has it.  Take a well-formed body (no surrogate code
    point) and a non-empty list of mentions that are in bounds, sorted and
    not overlapping, each covering whole characters, whose puppets are found
    and have well-formed names and ids.  Then the body is a sequence of
    pieces, a literal piece before each mention, the piece that the mention
    covers, and a tail, with the mentions at the UTF-16 offsets of the
    covered pieces, and [signal_to_matrix] returns HTML content whose plain
    body is the body with each covered piece replaced by the puppet's name
    (its Matrix id when it has no name) and every literal piece as it was,
    and whose formatted body has each literal piece escaped and each covered
    piece replaced by the anchor to the puppet's Matrix id around the name,
    the anchor itself not escaped. *)
Theorem mention_substitution (message : MessageData.t) :
  well_formed (MessageData.body message) ->
  MessageData.mentions message <> [] ->
  mentions_ordered 0 (MessageData.mentions message)
    (utf16_len (MessageData.body message)) ->
  Forall (aligned (MessageData.body message) 0) (MessageData.mentions message) ->
  Forall (resolvable directory) (MessageData.mentions message) ->
  exists segs tail,
    MessageData.body message = body_of segs tail
    /\ MessageData.mentions message = layout 0 segs
    /\ Forall (fun sg => directory (Address.Build (who sg) None) = Some (puppet sg)) segs
    /\ signal_to_matrix native directory message
       = Ok {| msgtype := TEXT; body := plain_of segs tail;
               format := Some HTML; formatted_body := Some (html_of segs tail) |}.
Proof.
  intros Hwf Hne Hord Hal Hres. destruct message as [b ms].
  cbn [MessageData.body MessageData.mentions] in *.
  destruct (segmentation_exists ms b 0 Hwf Hord Hal Hres)
    as (segs & tail & Hb & Hms & Hok & Htail).
  exists segs, tail. split; [exact Hb|]. split; [exact Hms|]. split.
  - revert Hok. apply Forall_impl. intros sg H. apply H.
  - rewrite Hb, Hms. apply mention_substitution_segments; try assumption.
    intros ->. apply Hne. exact Hms.
Qed.

End SegmentationProofs.

Lemma mention_substitution_witness :
  exists segs tail,
    py "Hi @A & @B <" ++ [0x1F600] = body_of segs tail
    /\ [Mention.Build (Some 1%N) 3 2; Mention.Build (Some 2%N) 8 2] = layout 0 segs
    /\ Forall (fun sg => example_directory (Address.Build (who sg) None)
                         = Some (puppet sg)) segs
    /\ signal_to_matrix LittleEndian example_directory
         (MessageData.Build (py "Hi @A & @B <" ++ [0x1F600])
            [Mention.Build (Some 1%N) 3 2; Mention.Build (Some 2%N) 8 2])
       = Ok {| msgtype := TEXT; body := plain_of segs tail;
               format := Some HTML; formatted_body := Some (html_of segs tail) |}.
Proof.
  apply (mention_substitution LittleEndian example_directory
           (MessageData.Build (py "Hi @A & @B <" ++ [0x1F600])
              [Mention.Build (Some 1%N) 3 2; Mention.Build (Some 2%N) 8 2])).
  - apply well_formedb_ok. vm_compute. reflexivity.
  - discriminate.
  - vm_compute. intuition discriminate.
  - apply Forall_cons; [|apply Forall_cons; [|apply Forall_nil]].
    + split; [exists 3%nat|exists 5%nat]; (split; [cbn; lia|reflexivity]).
    + split; [exists 8%nat|exists 10%nat]; (split; [cbn; lia|reflexivity]).
  - apply Forall_cons; [|apply Forall_cons; [|apply Forall_nil]].
    + exists alice. repeat split; apply well_formedb_ok; vm_compute; reflexivity.
    + exists bob. repeat split; apply well_formedb_ok; vm_compute; reflexivity.
Defined.

(** C4 as it is worded fails: a mention that is in bounds but covers only
    the second code unit of a character outside the BMP leaves unpaired
    surrogates in the chunks, and the conversion raises. *)
Lemma mention_substitution_counterexample :
  let message := MessageData.Build [0x1F600] [Mention.Build (Some 1%N) 1 1] in
  well_formed (MessageData.body message)
  /\ mentions_ordered 0 (MessageData.mentions message)
       (utf16_len (MessageData.body message))
  /\ signal_to_matrix LittleEndian example_directory message
     = Raise UnicodeDecodeError.
Proof.
  split; [apply well_formedb_ok; reflexivity|].
  split; [vm_compute; intuition discriminate|reflexivity].
Qed.

(** ** No check of the mention offsets *)

Lemma bmp_well_formed (s : pystr) : bmp s -> well_formed s.
Proof. apply Forall_impl. intros c [H Hs]. split; [lia|exact Hs]. Qed.

Lemma bmp_expand (s : pystr) : bmp s -> expand s = s.
Proof.
  intros H. apply expand_below. revert H. apply Forall_impl. intros c [H _]. lia.
Qed.

Lemma position_slice_index (n i : Z) : 0 <= n -> position n i = slice_index n i.
Proof.
  intros Hn. unfold position, slice_index. destruct (Z.ltb_spec i 0); lia.
Qed.

(** How [position] reads a bound: inside the text it is the bound itself,
    beyond the end it is the end, a negative bound counts from the end, and
    one further back than the start is the start. *)
Lemma position_cases (n i : Z) :
  0 <= n ->
  (0 <= i <= n -> position n i = i)
  /\ (n <= i -> position n i = n)
  /\ (- n <= i < 0 -> position n i = n + i)
  /\ (i < - n -> position n i = 0).
Proof.
  intros Hn. unfold position. destruct (Z.ltb_spec i 0); repeat split; lia.
Qed.

Lemma between_from_ge {A : Type} (s : list A) :
  forall k lo hi, lo <= k ->
    between_from k s lo hi = firstn (Z.to_nat (hi - k)) s.
Proof.
  induction s as [|c s IH]; intros k lo hi Hk; cbn [between_from].
  - rewrite firstn_nil. reflexivity.
  - rewrite (IH (k + 1) lo hi) by lia.
    destruct (Z.leb_spec lo k); [|lia]. cbn [andb].
    destruct (Z.ltb_spec k hi).
    + replace (Z.to_nat (hi - k)) with (S (Z.to_nat (hi - (k + 1)))) by lia.
      reflexivity.
    + replace (Z.to_nat (hi - (k + 1))) with 0%nat by lia.
      replace (Z.to_nat (hi - k)) with 0%nat by lia. reflexivity.
Qed.

Lemma between_from_le {A : Type} (s : list A) :
  forall k lo hi, k <= lo ->
    between_from k s lo hi
    = firstn (Z.to_nat (hi - lo)) (skipn (Z.to_nat (lo - k)) s).
Proof.
  induction s as [|c s IH]; intros k lo hi Hk.
  - cbn [between_from]. rewrite skipn_nil, firstn_nil. reflexivity.
  - destruct (Z.eq_dec k lo) as [->|Hne].
    + rewrite between_from_ge by lia. rewrite Z.sub_diag. reflexivity.
    + cbn [between_from]. destruct (Z.leb_spec lo k); [lia|]. cbn [andb].
      rewrite (IH (k + 1) lo hi) by lia.
      replace (Z.to_nat (lo - k)) with (S (Z.to_nat (lo - (k + 1)))) by lia.
      reflexivity.
Qed.

(** A slice is the stretch between the positions of its bounds. *)
Lemma py_slice_stretch (t : pystr) (a : Z) (b : option Z) :
  py_slice t a b = stretch t a b.
Proof.
  unfold py_slice, stretch, between. pose proof (len_nonneg t) as Hn.
  rewrite position_slice_index by exact Hn.
  assert (H0 : 0 <= slice_index (len t) a)
    by (unfold slice_index; destruct (Z.ltb_spec a 0); lia).
  rewrite between_from_le by exact H0. rewrite Z.sub_0_r.
  destruct b as [b|]; [rewrite position_slice_index by exact Hn|]; reflexivity.
Qed.

Lemma stretch_bmp (t : pystr) (a : Z) (b : option Z) :
  bmp t -> bmp (stretch t a b).
Proof. intros H. rewrite <- py_slice_stretch. apply Forall_py_slice, H. Qed.

Section OffsetProofs.

Variable native : ByteOrder.
Variable directory : Address.t -> option Puppet.t.

Lemma plain_with_well_formed (t : pystr) (items : list (Mention.t * Puppet.t)) :
  bmp t -> Forall (item_ok directory) items ->
  forall last, well_formed (plain_with t items last).
Proof.
  intros Ht. induction 1 as [|[m p] items (_ & Hname & _) _ IH]; intros last;
    cbn [plain_with].
  - apply bmp_well_formed, stretch_bmp, Ht.
  - apply well_formed_app; [apply bmp_well_formed, stretch_bmp, Ht|].
    apply well_formed_app; [exact Hname|apply IH].
Qed.

Lemma html_with_well_formed (t : pystr) (items : list (Mention.t * Puppet.t)) :
  bmp t -> Forall (item_ok directory) items ->
  forall last, well_formed (html_with t items last).
Proof.
  intros Ht. induction 1 as [|[m p] items (_ & Hname & Hmxid) _ IH]; intros last;
    cbn [html_with].
  - apply html_escape_well_formed, bmp_well_formed, stretch_bmp, Ht.
  - apply well_formed_app;
      [apply html_escape_well_formed, bmp_well_formed, stretch_bmp, Ht|].
    apply well_formed_app; [|apply IH].
    apply mention_anchor_well_formed; assumption.
Qed.

(** Whatever the offsets are, the loop ends without an error, and its
    chunks, with the tail behind them, are the expansion of the bodies that
    [plain_with] and [html_with] describe. *)
Lemma mention_loop_items (t : pystr) (items : list (Mention.t * Puppet.t)) :
  bmp t -> Forall (item_ok directory) items ->
  forall (last_offset : Z) (text_chunks html_chunks : list pystr),
    exists last_offset' text_chunks' html_chunks',
      mention_loop directory t (map fst items) last_offset text_chunks html_chunks
      = Ok (last_offset', text_chunks', html_chunks')
      /\ concat text_chunks' ++ py_slice t last_offset' None
         = concat text_chunks ++ expand (plain_with t items last_offset)
      /\ expand (concat html_chunks' ++ html_escape (py_slice t last_offset' None))
         = expand (concat html_chunks) ++ expand (html_with t items last_offset).
Proof.
  intros Ht. induction 1 as [|[m p] items (Hp & Hname & Hmxid) _ IH];
    intros last_offset text_chunks html_chunks.
  - exists last_offset, text_chunks, html_chunks.
    cbn [map mention_loop plain_with html_with].
    rewrite <- py_slice_stretch. split; [reflexivity|]. split.
    + rewrite (bmp_expand (py_slice t last_offset None)); [reflexivity|].
      rewrite py_slice_stretch. apply stretch_bmp, Ht.
    + apply expand_app.
  - cbn [map fst mention_loop]. cbn [fst snd] in Hp, Hname, Hmxid.
    rewrite Hp. fold (display_name p).
    rewrite (add_surrogate_expand _ (well_formed_is_str _ Hname)). cbn [bind].
    destruct (IH (Mention.start m + Mention.length m)
                 ((text_chunks ++ [py_slice t last_offset (Some (Mention.start m))])
                    ++ [expand (display_name p)])
                 ((html_chunks
                     ++ [html_escape (py_slice t last_offset (Some (Mention.start m)))])
                    ++ [mention_anchor (Puppet.mxid p) (expand (display_name p))]))
      as (lo & tc & hc & Hloop & Htc & Hhc).
    exists lo, tc, hc. split; [exact Hloop|].
    cbn [plain_with html_with]. rewrite !py_slice_stretch in *.
    assert (Hs : expand (stretch t last_offset (Some (Mention.start m)))
                 = stretch t last_offset (Some (Mention.start m)))
      by (apply bmp_expand, stretch_bmp, Ht).
    split.
    + rewrite Htc. rewrite !concat_app. cbn [concat]. rewrite !app_nil_r.
      rewrite !expand_app, Hs, <- !app_assoc. reflexivity.
    + rewrite Hhc. rewrite !concat_app. cbn [concat]. rewrite !app_nil_r.
      rewrite !expand_app.
      rewrite (mention_anchor_expand _ _ (well_formed_is_str _ Hmxid)
                 (well_formed_is_str _ Hname)).
      rewrite <- !app_assoc. reflexivity.
Qed.

(** C6, as the code has it.  [signal_to_matrix] does not check the offsets
    of the mentions.  For every message whose body has only characters of
    the BMP, and for mentions with any start and length whatever (negative,
    empty, or beyond the end of the body), whose puppets are found and have
    well-formed names and ids, the conversion raises no error and returns
    HTML content.  Each bound is read as a slice bound: a negative one
    counts from the end of the body, and every bound is then brought into
    the body.  The plain body is, mention after mention, the stretch of the
    body from the end of the mention before (from 0 for the first) to the
    start of this one, empty when the start does not come after that end,
    and then the name; at last the stretch from the end of the last mention
    to the end of the body.  The formatted body is the same with every
    stretch escaped and every name in its anchor. *)
Theorem signal_to_matrix_unchecked_offsets (message : MessageData.t)
    (items : list (Mention.t * Puppet.t)) :
  bmp (MessageData.body message) ->
  MessageData.mentions message = map fst items ->
  items <> [] ->
  Forall (item_ok directory) items ->
  signal_to_matrix native directory message
  = Ok {| msgtype := TEXT;
          body := plain_with (MessageData.body message) items 0;
          format := Some HTML;
          formatted_body := Some (html_with (MessageData.body message) items 0) |}.
Proof.
  intros Hbody Hm Hne Hitems. unfold signal_to_matrix.
  rewrite (add_surrogate_expand _ (well_formed_is_str _ (bmp_well_formed _ Hbody))).
  rewrite (bmp_expand _ Hbody). cbn [bind]. rewrite Hm.
  destruct (mention_loop_items (MessageData.body message) items Hbody Hitems 0 [] [])
    as (lo & tc & hc & Hloop & Htc & Hhc).
  destruct items as [|item items]; [contradiction|].
  cbn [map] in Hloop |- *. rewrite Hloop. cbn [bind].
  unfold str_join. rewrite !concat_app. cbn [concat]. rewrite !app_nil_r.
  cbn [concat app] in Htc, Hhc.
  rewrite (del_surrogate_of_units native _
             (plain_with (MessageData.body message) (item :: items) 0)).
  - cbn [bind].
    rewrite (del_surrogate_of_units native _
               (html_with (MessageData.body message) (item :: items) 0));
      [reflexivity| |].
    + apply html_with_well_formed; assumption.
    + rewrite units_expand. exact Hhc.
  - apply plain_with_well_formed; assumption.
  - rewrite Htc, units_expand. apply expand_idem, well_formed_is_str.
    apply plain_with_well_formed; assumption.
Qed.

End OffsetProofs.

Lemma signal_to_matrix_unchecked_offsets_witness :
  malformed (utf16_len (py "Hi")) (Mention.Build (Some 1%N) (-1) 4)
  /\ signal_to_matrix LittleEndian example_directory
       (MessageData.Build (py "Hi") [Mention.Build (Some 1%N) (-1) 4])
     = Ok {| msgtype := TEXT; body := py "HAlice"; format := Some HTML;
             formatted_body :=
               Some (py "H<a href=" ++ [34]
                       ++ py "https://matrix.to/#/@signal_1:example.org" ++ [34]
                       ++ py ">Alice</a>") |}.
Proof.
  split; [left; vm_compute; reflexivity|].
  apply (signal_to_matrix_unchecked_offsets LittleEndian example_directory
           (MessageData.Build (py "Hi") [Mention.Build (Some 1%N) (-1) 4])
           [(Mention.Build (Some 1%N) (-1) 4, alice)]).
  - apply bmpb_ok. vm_compute. reflexivity.
  - reflexivity.
  - discriminate.
  - apply Forall_cons; [|apply Forall_nil].
    repeat split; apply well_formedb_ok; vm_compute; reflexivity.
Defined.

(** C6 as it is worded fails: a mention that starts after the end of the
    body, one with a negative start and one with an empty length are all
    converted without any error; a bound beyond the end is taken as the end
    and a negative start counts from the end. *)
Lemma malformed_offsets_counterexample :
  (malformed (utf16_len (py "Hi")) (Mention.Build (Some 1%N) 5 3)
   /\ exists content,
        signal_to_matrix LittleEndian example_directory
          (MessageData.Build (py "Hi") [Mention.Build (Some 1%N) 5 3]) = Ok content
        /\ body content = py "HiAlice")
  /\ (malformed (utf16_len (py "Hi")) (Mention.Build (Some 1%N) (-1) 1)
      /\ exists content,
           signal_to_matrix LittleEndian example_directory
             (MessageData.Build (py "Hi") [Mention.Build (Some 1%N) (-1) 1]) = Ok content
           /\ body content = py "HAliceHi")
  /\ (malformed (utf16_len (py "Hi")) (Mention.Build (Some 1%N) 1 0)
      /\ exists content,
           signal_to_matrix LittleEndian example_directory
             (MessageData.Build (py "Hi") [Mention.Build (Some 1%N) 1 0]) = Ok content
           /\ body content = py "HAlicei").
Proof.
  split; [|split].
  - split; [right; right; vm_compute; reflexivity|].
    eexists. split; [vm_compute; reflexivity|reflexivity].
  - split; [left; vm_compute; reflexivity|].
    eexists. split; [vm_compute; reflexivity|reflexivity].
  - split; [right; left; vm_compute; discriminate|].
    eexists. split; [vm_compute; reflexivity|reflexivity].
Qed.


(* ================================================================== *)
(** * Further properties of the formatter *)
(* ================================================================== *)

(** ** [add_surrogate] *)

Lemma add_surrogate_char_cases (x : Z) :
  add_surrogate_char x
  = Ok (if astral x
        then [0xD800 + (x - 0x10000) / 1024; 0xDC00 + (x - 0x10000) mod 1024]
        else [x]).
Proof.
  unfold astral. destruct (Z.leb_spec x 1114111) as [Hle|Hgt].
  - rewrite (add_surrogate_char_expand x Hle). unfold expand_char.
    destruct (Z.leb_spec 65536 x), (Z.ltb_spec x 65536); try lia; reflexivity.
  - rewrite andb_false_r. unfold add_surrogate_char.
    destruct (Z.leb_spec x 1114111); [lia|]. rewrite andb_false_r. reflexivity.
Qed.

(** X1.  [add_surrogate] never fails, whatever the string holds, unpaired
    surrogates included, and its result has one character more for each
    character outside the BMP: its length is the length in UTF-16 code
    units. *)
Theorem add_surrogate_length (s : pystr) :
  exists t, add_surrogate s = Ok t
            /\ len t = len s + len (filter astral s).
Proof.
  induction s as [|x s (t & Ht & Hl)].
  - exists []. split; reflexivity.
  - cbn [add_surrogate filter]. rewrite add_surrogate_char_cases, Ht. cbn [bind].
    eexists. split; [reflexivity|].
    destruct (astral x); unfold len in *; rewrite length_app;
      cbn [List.length]; lia.
Qed.

(** X2.  [add_surrogate] is compatible with concatenation: expanding two
    strings and joining the results is the same as expanding the joined
    strings.  This is what lets [signal_to_matrix] cut the expanded body
    into chunks and join them with expanded names. *)
Theorem add_surrogate_app (a b : pystr) :
  add_surrogate (a ++ b)
  = (x <- add_surrogate a ;; y <- add_surrogate b ;; Ok (x ++ y)).
Proof.
  induction a as [|c a IH].
  - cbn [app add_surrogate bind].
    destruct (add_surrogate b); reflexivity.
  - cbn [app add_surrogate]. rewrite IH, add_surrogate_char_cases. cbn [bind].
    destruct (add_surrogate a) as [x|e]; cbn [bind]; [|reflexivity].
    destruct (add_surrogate b) as [y|e]; cbn [bind]; [|reflexivity].
    rewrite app_assoc. reflexivity.
Qed.

Lemma expand_code_units (s : pystr) : is_str s -> Forall code_unit (expand s).
Proof.
  induction 1 as [|c s Hc _ IH]; [constructor|].
  unfold expand. cbn [flat_map]. fold (expand s).
  apply Forall_app. split; [|exact IH].
  unfold expand_char, code_unit. destruct (Z.ltb_spec c 65536).
  - repeat constructor; lia.
  - destruct (expand_char_pair_range c ltac:(lia)). repeat constructor; lia.
Qed.

(** X3.  The result of [add_surrogate] on a Python string holds UTF-16 code
    units only (every character is below [0x10000]), and expanding it again
    changes nothing. *)
Theorem add_surrogate_idempotent (s : pystr) :
  is_str s ->
  exists t, add_surrogate s = Ok t
            /\ Forall code_unit t
            /\ add_surrogate t = Ok t.
Proof.
  intros Hs. exists (expand s). split; [apply add_surrogate_expand, Hs|].
  pose proof (expand_code_units s Hs) as Hu. split; [exact Hu|].
  rewrite add_surrogate_expand.
  - rewrite expand_idem by exact Hs. reflexivity.
  - revert Hu. apply Forall_impl. unfold code_unit. intros c Hc. lia.
Qed.

Lemma add_surrogate_idempotent_witness :
  exists t, add_surrogate [72; 0x1F600; 0xD800] = Ok t
            /\ Forall code_unit t
            /\ add_surrogate t = Ok t.
Proof.
  apply (add_surrogate_idempotent [72; 0x1F600; 0xD800]).
  repeat constructor; lia.
Defined.

(** X4.  A string without characters outside the BMP is returned as it is
    by [add_surrogate], also when it holds surrogate code points: those are
    never encoded, so the strict encoder cannot refuse them. *)
Theorem add_surrogate_bmp_identity (s : pystr) :
  Forall (fun c => c < 0x10000) s -> add_surrogate s = Ok s.
Proof.
  induction 1 as [|c s Hc _ IH]; [reflexivity|].
  cbn [add_surrogate]. rewrite add_surrogate_char_cases, IH.
  unfold astral. destruct (Z.leb_spec 65536 c); [lia|]. reflexivity.
Qed.

Lemma add_surrogate_bmp_identity_witness :
  add_surrogate [72; 0xDC00; 0xD800; 0xFFFF] = Ok [72; 0xDC00; 0xD800; 0xFFFF].
Proof.
  apply (add_surrogate_bmp_identity [72; 0xDC00; 0xD800; 0xFFFF]).
  repeat constructor.
Defined.

(** ** [del_surrogate] *)

Lemma join_surrogates_value (u l : Z) :
  is_high_surrogate u = true -> is_low_surrogate l = true ->
  join_surrogates u l = 0x10000 + (u - 0xD800) * 1024 + (l - 0xDC00).
Proof.
  unfold is_high_surrogate, is_low_surrogate. intros Hu Hl.
  apply andb_true_iff in Hu, Hl.
  unfold join_surrogates. change 1023 with (Z.ones 10).
  rewrite !Z.land_ones by lia. change (2 ^ 10) with 1024.
  replace (u mod 1024) with (u - 55296)
    by (replace u with ((u - 55296) + 54 * 1024) at 2 by lia;
        rewrite Z.mod_add by lia; symmetry; apply Z.mod_small; lia).
  replace (l mod 1024) with (l - 56320)
    by (replace l with ((l - 56320) + 55 * 1024) at 2 by lia;
        rewrite Z.mod_add by lia; symmetry; apply Z.mod_small; lia).
  rewrite lor_shiftl_low by (change (2 ^ 10) with 1024; lia).
  change (2 ^ 10) with 1024. lia.
Qed.

Lemma expand_char_join_surrogates (u l : Z) :
  is_high_surrogate u = true -> is_low_surrogate l = true ->
  expand_char (join_surrogates u l) = [u; l]
  /\ 0x10000 <= join_surrogates u l <= 0x10FFFF.
Proof.
  intros Hu Hl. rewrite (join_surrogates_value u l Hu Hl).
  unfold is_high_surrogate, is_low_surrogate in Hu, Hl.
  apply andb_true_iff in Hu, Hl.
  split; [|lia]. unfold expand_char.
  destruct (Z.ltb_spec (65536 + (u - 55296) * 1024 + (l - 56320)) 65536); [lia|].
  replace (65536 + (u - 55296) * 1024 + (l - 56320) - 65536)
    with ((l - 56320) + (u - 55296) * 1024) by lia.
  rewrite Z.div_add, Z.mod_add by lia.
  rewrite Z.div_small, Z.mod_small by lia. f_equal; [lia|f_equal; lia].
Qed.

(** What a successful strict decoding gives: a well-formed string whose
    code units are the decoded ones. *)
Lemma chars_of_units_inv (n : nat) :
  forall (us : list Z) (s : pystr),
    (List.length us <= n)%nat -> Forall code_unit us ->
    chars_of_units us = Ok s ->
    expand s = us /\ well_formed s.
Proof.
  induction n as [|n IH]; intros us s Hlen Hus Hdec.
  - destruct us; [|cbn in Hlen; lia]. cbn in Hdec. injection Hdec as <-.
    split; [reflexivity|constructor].
  - destruct us as [|u rest].
    { cbn in Hdec. injection Hdec as <-. split; [reflexivity|constructor]. }
    cbn [List.length] in Hlen. cbn [chars_of_units] in Hdec.
    inversion Hus as [|? ? Hu Hrest]; subst.
    destruct (is_high_surrogate u) eqn:Hh.
    + destruct rest as [|l rest']; [discriminate|].
      destruct (is_low_surrogate l) eqn:Hl; [|discriminate].
      inversion Hrest as [|? ? _ Hrest']; subst.
      destruct (chars_of_units rest') as [s'|e] eqn:Hs'; [|discriminate].
      cbn [bind] in Hdec. injection Hdec as <-.
      cbn [List.length] in Hlen.
      destruct (IH rest' s' ltac:(lia) Hrest' Hs') as [He Hw].
      destruct (expand_char_join_surrogates u l Hh Hl) as [Hx Hr].
      split.
      * unfold expand. cbn [flat_map]. fold (expand s'). rewrite Hx, He. reflexivity.
      * constructor; [|exact Hw]. split; [lia|].
        unfold is_surrogate. destruct (Z.leb_spec (join_surrogates u l) 57343); [lia|].
        apply andb_false_r.
    + destruct (is_low_surrogate u) eqn:Hl; [discriminate|].
      destruct (chars_of_units rest) as [s'|e] eqn:Hs'; [|discriminate].
      cbn [bind] in Hdec. injection Hdec as <-.
      destruct (IH rest s' ltac:(lia) Hrest Hs') as [He Hw].
      unfold code_unit in Hu. split.
      * unfold expand. cbn [flat_map]. fold (expand s'). rewrite He.
        unfold expand_char. destruct (Z.ltb_spec u 65536); [reflexivity|lia].
      * constructor; [|exact Hw]. split; [lia|].
        unfold is_high_surrogate, is_low_surrogate, is_surrogate in *.
        destruct (Z.leb_spec 55296 u), (Z.leb_spec u 56319), (Z.leb_spec 56320 u),
          (Z.leb_spec u 57343); cbn [andb] in *; try discriminate; try lia;
          reflexivity.
Qed.

(** X5.  The round trip in the other direction.  When [del_surrogate]
    accepts a sequence of UTF-16 code units, [add_surrogate] of its result
    is that sequence again: nothing is lost or added by collapsing. *)
Theorem add_surrogate_del_surrogate (native : ByteOrder) (us s : pystr) :
  Forall code_unit us ->
  del_surrogate native us = Ok s ->
  add_surrogate s = Ok us.
Proof.
  intros Hus Hdel. rewrite del_surrogate_units in Hdel.
  rewrite units_below in Hdel
    by (revert Hus; apply Forall_impl; unfold code_unit; intros c Hc; lia).
  destruct (chars_of_units_inv (List.length us) us s ltac:(lia) Hus Hdel) as [He Hw].
  rewrite add_surrogate_expand by (apply well_formed_is_str, Hw).
  rewrite He. reflexivity.
Qed.

Lemma add_surrogate_del_surrogate_witness :
  add_surrogate [72; 0x1F600; 33] = Ok [72; 0xD83D; 0xDE00; 33].
Proof.
  apply (add_surrogate_del_surrogate BigEndian [72; 0xD83D; 0xDE00; 33] [72; 0x1F600; 33]).
  - unfold code_unit. repeat constructor; lia.
  - reflexivity.
Defined.

(** X6.  Whatever Python string [del_surrogate] is given, a result it
    returns holds no surrogate code point, has the same UTF-16 code units as
    the argument, and is not changed by a second [del_surrogate]. *)
Theorem del_surrogate_result_well_formed (native : ByteOrder) (t s : pystr) :
  is_str t ->
  del_surrogate native t = Ok s ->
  well_formed s /\ expand s = expand t /\ del_surrogate native s = Ok s.
Proof.
  intros Ht Hdel. rewrite del_surrogate_units, units_expand in Hdel.
  destruct (chars_of_units_inv (List.length (expand t)) (expand t) s ltac:(lia)
              (expand_code_units t Ht) Hdel) as [He Hw].
  split; [exact Hw|]. split; [exact He|].
  apply del_surrogate_of_units; [exact Hw|apply units_expand].
Qed.

Lemma del_surrogate_result_well_formed_witness :
  well_formed [0x1F600; 0x1F600]
  /\ expand [0x1F600; 0x1F600] = expand [0xD83D; 0xDE00; 0x1F600]
  /\ del_surrogate LittleEndian [0x1F600; 0x1F600] = Ok [0x1F600; 0x1F600].
Proof.
  apply (del_surrogate_result_well_formed LittleEndian [0xD83D; 0xDE00; 0x1F600]).
  - repeat constructor; lia.
  - reflexivity.
Defined.

(** X7.  [del_surrogate] returns a well-formed string as it is, also one
    that holds characters outside the BMP that were never expanded. *)
Theorem del_surrogate_well_formed_identity (native : ByteOrder) (s : pystr) :
  well_formed s -> del_surrogate native s = Ok s.
Proof.
  intros Hs. apply del_surrogate_of_units; [exact Hs|apply units_expand].
Qed.

Lemma del_surrogate_well_formed_identity_witness :
  del_surrogate BigEndian [72; 0x1F600; 0x10FFFF] = Ok [72; 0x1F600; 0x10FFFF].
Proof.
  apply (del_surrogate_well_formed_identity BigEndian [72; 0x1F600; 0x10FFFF]).
  repeat constructor; lia.
Defined.

(** X8.  The result of [del_surrogate] does not depend on the byte order of
    the machine: the byte order mark that the encoder writes makes the
    decoder read the bytes in the order in which they were written. *)
Theorem del_surrogate_byte_order (t : pystr) :
  del_surrogate LittleEndian t = del_surrogate BigEndian t.
Proof. rewrite !del_surrogate_units. reflexivity. Qed.

Lemma lone_surrogate_cons (u : Z) (rest : list Z) (j : nat) :
  is_high_surrogate u = false ->
  lone_surrogate_at rest j -> lone_surrogate_at (u :: rest) (S j).
Proof.
  intros Hu [Hlt H]. split; [cbn [List.length]; lia|].
  destruct H as [H|[Hlow Hprev]]; [left; exact H|].
  right. split; [exact Hlow|]. right.
  destruct j as [|k]; [exact Hu|].
  destruct Hprev as [Hprev|Hprev]; [discriminate|].
  cbn in Hprev |- *. rewrite Nat.sub_0_r in Hprev. exact Hprev.
Qed.

Lemma lone_surrogate_cons_pair (u l : Z) (rest : list Z) (j : nat) :
  is_low_surrogate l = true ->
  lone_surrogate_at rest j -> lone_surrogate_at (u :: l :: rest) (S (S j)).
Proof.
  intros Hl [Hlt H]. split; [cbn [List.length]; lia|].
  destruct H as [H|[Hlow Hprev]]; [left; exact H|].
  right. split; [exact Hlow|]. right.
  destruct j as [|k].
  - cbn. destruct (is_high_surrogate l) eqn:Hh; [|reflexivity].
    destruct (high_not_low l Hh Hl).
  - destruct Hprev as [Hprev|Hprev]; [discriminate|].
    cbn in Hprev |- *. rewrite Nat.sub_0_r in Hprev. exact Hprev.
Qed.

Lemma chars_of_units_paired (n : nat) :
  forall us : list Z,
    (List.length us <= n)%nat ->
    (forall i, ~ lone_surrogate_at us i) ->
    exists s, chars_of_units us = Ok s.
Proof.
  induction n as [|n IH]; intros us Hlen Hno.
  - destruct us; [exists []; reflexivity|cbn in Hlen; lia].
  - destruct us as [|u rest]; [exists []; reflexivity|].
    cbn [List.length] in Hlen. cbn [chars_of_units].
    destruct (is_high_surrogate u) eqn:Hh.
    + destruct rest as [|l rest'].
      { exfalso. apply (Hno 0%nat). split; [cbn; lia|]. left. split; [exact Hh|reflexivity]. }
      destruct (is_low_surrogate l) eqn:Hl.
      * cbn [List.length] in Hlen.
        destruct (IH rest' ltac:(lia)) as [s Hs].
        { intros j Hj. apply (Hno (S (S j))).
          apply lone_surrogate_cons_pair; assumption. }
        rewrite Hs. eexists. reflexivity.
      * exfalso. apply (Hno 0%nat). split; [cbn; lia|]. left. split; assumption.
    + destruct (is_low_surrogate u) eqn:Hl.
      { exfalso. apply (Hno 0%nat). split; [cbn; lia|].
        right. split; [exact Hl|left; reflexivity]. }
      destruct (IH rest ltac:(lia)) as [s Hs].
      { intros j Hj. apply (Hno (S j)). apply lone_surrogate_cons; assumption. }
      rewrite Hs. eexists. reflexivity.
Qed.

Lemma chars_of_units_error (n : nat) :
  forall (us : list Z) (e : exn),
    (List.length us <= n)%nat ->
    chars_of_units us = Raise e -> e = UnicodeDecodeError.
Proof.
  induction n as [|n IH]; intros us e Hlen He.
  - destruct us; [discriminate|cbn in Hlen; lia].
  - destruct us as [|u rest]; [discriminate|].
    cbn [List.length] in Hlen. cbn [chars_of_units] in He.
    destruct (is_high_surrogate u).
    + destruct rest as [|l rest']; [congruence|].
      destruct (is_low_surrogate l); [|congruence].
      cbn [List.length] in Hlen.
      destruct (chars_of_units rest') as [s|e'] eqn:Hs; [discriminate|].
      cbn [bind] in He. injection He as <-. apply (IH rest'); [lia|exact Hs].
    + destruct (is_low_surrogate u); [congruence|].
      destruct (chars_of_units rest) as [s|e'] eqn:Hs; [discriminate|].
      cbn [bind] in He. injection He as <-. apply (IH rest); [lia|exact Hs].
Qed.

(** X9.  [del_surrogate] of a sequence of UTF-16 code units succeeds exactly
    when no surrogate in it is without its partner; and whatever string it
    is given, when it fails the error is [UnicodeDecodeError], never an
    encoding error. *)
Theorem del_surrogate_succeeds_iff (native : ByteOrder) (us : list Z) :
  (Forall code_unit us ->
   ((exists s, del_surrogate native us = Ok s)
    <-> (forall i, ~ lone_surrogate_at us i)))
  /\ (forall e, del_surrogate native us = Raise e -> e = UnicodeDecodeError).
Proof.
  split.
  - intros Hus.
    assert (Hb : Forall (fun u => u < 65536) us)
      by (revert Hus; apply Forall_impl; unfold code_unit; intros c Hc; lia).
    rewrite del_surrogate_units, units_below by exact Hb.
    split.
    + intros [s Hs] i Hi.
      rewrite (chars_of_units_lone (List.length us) us i ltac:(lia) Hi) in Hs.
      discriminate.
    + intros Hno. apply (chars_of_units_paired (List.length us)); [lia|exact Hno].
  - intros e He. rewrite del_surrogate_units in He.
    apply (chars_of_units_error (List.length (units us)) (units us)); [lia|exact He].
Qed.

Lemma del_surrogate_succeeds_iff_witness :
  (exists s, del_surrogate LittleEndian [0xD83D; 0xDE00; 72] = Ok s)
  <-> (forall i, ~ lone_surrogate_at [0xD83D; 0xDE00; 72] i).
Proof.
  apply (del_surrogate_succeeds_iff LittleEndian [0xD83D; 0xDE00; 72]).
  unfold code_unit. repeat constructor; lia.
Defined.

(** ** [signal_to_matrix]: errors *)

Section InboundErrors.

Variable native : ByteOrder.
Variable directory : Address.t -> option Puppet.t.

Lemma mention_loop_unresolved (surrogated_text : pystr) (m : Mention.t)
    (ms : list Mention.t) :
  In m ms ->
  directory (Address.Build (Mention.uuid m) None) = None ->
  forall (last_offset : Z) (text_chunks html_chunks : list pystr),
    mention_loop directory surrogated_text ms last_offset text_chunks html_chunks
    = Raise AttributeError.
Proof.
  intros Hin Hnone.
  induction ms as [|m0 ms IH]; intros last_offset text_chunks html_chunks;
    [contradiction|].
  cbn [mention_loop].
  destruct (directory (Address.Build (Mention.uuid m0) None)) as [p|] eqn:Hp;
    [|reflexivity].
  destruct (add_surrogate_total (or_else (Puppet.name p) (Puppet.mxid p))) as [n Hn].
  rewrite Hn. cbn [bind]. apply IH.
  destruct Hin as [->|Hin]; [congruence|exact Hin].
Qed.

(** X10.  A mention whose puppet the directory does not give makes
    [signal_to_matrix] fail with [AttributeError], whatever the body and the
    other mentions are: there is no check for a missing puppet, and no
    partial content is returned. *)
Theorem signal_to_matrix_unresolved_mention (message : MessageData.t) (m : Mention.t) :
  In m (MessageData.mentions message) ->
  directory (Address.Build (Mention.uuid m) None) = None ->
  signal_to_matrix native directory message = Raise AttributeError.
Proof.
  intros Hin Hnone. unfold signal_to_matrix.
  destruct (add_surrogate_total (MessageData.body message)) as [t Ht].
  rewrite Ht. cbn [bind].
  destruct (MessageData.mentions message) as [|m0 ms] eqn:E; [contradiction|].
  rewrite (mention_loop_unresolved t m (m0 :: ms) Hin Hnone). reflexivity.
Qed.


Lemma del_surrogate_error (t : pystr) (e : exn) :
  del_surrogate native t = Raise e -> e = UnicodeDecodeError.
Proof.
  intros He. rewrite del_surrogate_units in He.
  apply (chars_of_units_error (List.length (units t)) (units t)); [lia|exact He].
Qed.


End InboundErrors.

Lemma signal_to_matrix_unresolved_mention_witness :
  signal_to_matrix LittleEndian example_directory
    (MessageData.Build (py "Hi @A and @C")
       [Mention.Build (Some 1%N) 3 2; Mention.Build (Some 3%N) 10 2])
  = Raise AttributeError.
Proof.
  apply (signal_to_matrix_unresolved_mention LittleEndian example_directory
           (MessageData.Build (py "Hi @A and @C")
              [Mention.Build (Some 1%N) 3 2; Mention.Build (Some 3%N) 10 2])
           (Mention.Build (Some 3%N) 10 2)).
  - right. left. reflexivity.
  - reflexivity.
Defined.


(** ** [signal_to_matrix]: what a result looks like *)

Lemma is_str_app (a b : pystr) : is_str a -> is_str b -> is_str (a ++ b).
Proof. intros Ha Hb. apply Forall_app. split; assumption. Qed.

Lemma is_str_concat (chunks : list pystr) :
  Forall is_str chunks -> is_str (concat chunks).
Proof.
  induction 1 as [|c chunks Hc _ IH]; [constructor|].
  cbn [concat]. apply is_str_app; assumption.
Qed.

Lemma is_str_expand (s : pystr) : is_str s -> is_str (expand s).
Proof.
  intros Hs. pose proof (expand_code_units s Hs) as H. revert H.
  apply Forall_impl. unfold code_unit. intros c Hc. lia.
Qed.

Lemma is_str_py (s : string) : is_str (py s).
Proof. apply well_formed_is_str, py_well_formed. Qed.

Lemma is_str_html_escape (s : pystr) : is_str s -> is_str (html_escape s).
Proof.
  induction 1 as [|c s Hc _ IH]; [constructor|].
  unfold html_escape. cbn [flat_map]. apply is_str_app; [|exact IH].
  unfold html_escape_char.
  repeat match goal with
         | |- context [if ?b then _ else _] => destruct b
         end; try apply is_str_py.
  constructor; [exact Hc|constructor].
Qed.

Lemma is_str_mention_anchor (mxid name : pystr) :
  is_str mxid -> is_str name -> is_str (mention_anchor mxid name).
Proof.
  intros Hm Hn. unfold mention_anchor.
  repeat (apply is_str_app; try assumption; try apply is_str_py);
    (constructor; [lia|constructor]).
Qed.

Lemma del_surrogate_ok_inv (native : ByteOrder) (t s : pystr) :
  is_str t -> del_surrogate native t = Ok s ->
  well_formed s /\ expand s = expand t.
Proof.
  intros Ht Hdel. rewrite del_surrogate_units, units_expand in Hdel.
  destruct (chars_of_units_inv (List.length (expand t)) (expand t) s ltac:(lia)
              (expand_code_units t Ht) Hdel) as [He Hw].
  split; assumption.
Qed.

Section InboundResults.

Variable native : ByteOrder.
Variable directory : Address.t -> option Puppet.t.

(** The puppets of the directory hold Python strings. *)
Hypothesis directory_strings :
  forall address p, directory address = Some p ->
    is_str (display_name p) /\ is_str (Puppet.mxid p).

Lemma mention_loop_is_str (surrogated_text : pystr) (ms : list Mention.t) :
  is_str surrogated_text ->
  forall (last_offset : Z) (text_chunks html_chunks : list pystr)
         (last_offset' : Z) (text_chunks' html_chunks' : list pystr),
    Forall is_str text_chunks -> Forall is_str html_chunks ->
    mention_loop directory surrogated_text ms last_offset text_chunks html_chunks
    = Ok (last_offset', text_chunks', html_chunks') ->
    Forall is_str text_chunks' /\ Forall is_str html_chunks'.
Proof.
  intros Hst. induction ms as [|m ms IH];
    intros last_offset tc hc last_offset' tc' hc' Htc Hhc Hloop.
  - cbn in Hloop. injection Hloop as _ <- <-. split; assumption.
  - cbn [mention_loop] in Hloop.
    destruct (directory (Address.Build (Mention.uuid m) None)) as [p|] eqn:Hp;
      [|discriminate].
    destruct (directory_strings _ _ Hp) as [Hname Hmxid].
    unfold display_name in Hname.
    rewrite (add_surrogate_expand _ Hname) in Hloop. cbn [bind] in Hloop.
    assert (Hslice : is_str (py_slice surrogated_text last_offset
                                      (Some (Mention.start m))))
      by (apply Forall_py_slice, Hst).
    eapply IH; [| |exact Hloop].
    + repeat (apply Forall_app; split); try assumption.
      * apply Forall_cons; [|apply Forall_nil]. exact Hslice.
      * apply Forall_cons; [|apply Forall_nil]. apply is_str_expand, Hname.
    + repeat (apply Forall_app; split); try assumption.
      * apply Forall_cons; [|apply Forall_nil]. apply is_str_html_escape, Hslice.
      * apply Forall_cons; [|apply Forall_nil].
        apply is_str_mention_anchor; [exact Hmxid|apply is_str_expand, Hname].
Qed.

(** X12.  Whatever the offsets are, content that [signal_to_matrix] returns
    is a text message; without mentions it is the body as it came, with no
    format; with mentions its format is HTML and neither its plain body nor
    its formatted body holds a surrogate code point: broken pairs are never
    passed on to Matrix. *)
Theorem signal_to_matrix_result (message : MessageData.t)
    (content : TextMessageEventContent) :
  is_str (MessageData.body message) ->
  signal_to_matrix native directory message = Ok content ->
  msgtype content = TEXT
  /\ (MessageData.mentions message = [] ->
        content = {| msgtype := TEXT; body := MessageData.body message;
                     format := None; formatted_body := None |})
  /\ (MessageData.mentions message <> [] ->
        format content = Some HTML
        /\ well_formed (body content)
        /\ exists html, formatted_body content = Some html /\ well_formed html).
Proof.
  intros Hbody. unfold signal_to_matrix.
  rewrite (add_surrogate_expand _ Hbody). cbn [bind].
  pose proof (is_str_expand _ Hbody) as Hst.
  destruct (MessageData.mentions message) as [|m0 ms] eqn:E.
  - intros H. injection H as <-. split; [reflexivity|]. split; [reflexivity|].
    intros Hne. contradiction.
  - destruct (mention_loop directory (expand (MessageData.body message))
                (m0 :: ms) 0 [] []) as [[[lo tc] hc]|e'] eqn:Hloop; [|discriminate].
    cbn [bind].
    destruct (mention_loop_is_str _ _ Hst _ _ _ _ _ _ (Forall_nil _) (Forall_nil _) Hloop)
      as [Htc Hhc].
    assert (Hend : is_str (py_slice (expand (MessageData.body message)) lo None))
      by (apply Forall_py_slice, Hst).
    destruct (del_surrogate native _) as [b|e1] eqn:Hb; [|discriminate].
    cbn [bind].
    destruct (del_surrogate native
                (str_join (hc ++ [html_escape
                                    (py_slice (expand (MessageData.body message)) lo None)])))
      as [fb|e2] eqn:Hfb; [|discriminate].
    cbn [bind]. intros H. injection H as <-.
    split; [reflexivity|]. split; [discriminate|]. intros _.
    split; [reflexivity|]. cbn [body formatted_body]. split.
    + apply (del_surrogate_ok_inv native _ b) in Hb; [apply Hb|].
      apply is_str_concat, Forall_app. split; [exact Htc|].
      apply Forall_cons; [|apply Forall_nil]. exact Hend.
    + exists fb. split; [reflexivity|].
      apply (del_surrogate_ok_inv native _ fb) in Hfb; [apply Hfb|].
      apply is_str_concat, Forall_app. split; [exact Hhc|].
      apply Forall_cons; [|apply Forall_nil]. apply is_str_html_escape, Hend.
Qed.

End InboundResults.

Lemma example_directory_strings :
  forall address p, example_directory address = Some p ->
    is_str (display_name p) /\ is_str (Puppet.mxid p).
Proof.
  intros [u n] p H. unfold example_directory in H. cbn [Address.uuid] in H.
  destruct u as [[|[q|[q|q|]|]]|]; try discriminate; injection H as <-;
    split; apply well_formed_is_str, well_formedb_ok; vm_compute; reflexivity.
Qed.

Lemma signal_to_matrix_result_witness :
  let content :=
    {| msgtype := TEXT; body := py "Hi Alice"; format := Some HTML;
       formatted_body :=
         Some (py "Hi <a href=" ++ [34]
                 ++ py "https://matrix.to/#/@signal_1:example.org" ++ [34]
                 ++ py ">Alice</a>") |} in
  msgtype content = TEXT
  /\ ([Mention.Build (Some 1%N) 3 2] = [] ->
        content = {| msgtype := TEXT; body := py "Hi @A";
                     format := None; formatted_body := None |})
  /\ ([Mention.Build (Some 1%N) 3 2] <> [] ->
        format content = Some HTML
        /\ well_formed (body content)
        /\ exists html, formatted_body content = Some html /\ well_formed html).
Proof.
  intros content.
  apply (signal_to_matrix_result LittleEndian example_directory
           example_directory_strings
           (MessageData.Build (py "Hi @A") [Mention.Build (Some 1%N) 3 2]) content).
  - apply is_str_py.
  - reflexivity.
Defined.

(** ** [signal_to_matrix]: mentions that overlap *)



Section Overlap.

Variable native : ByteOrder.
Variable directory : Address.t -> option Puppet.t.


End Overlap.



(** ** [SignalFormatString.format] *)

(** X14.  [format] raises [KeyError] exactly when the keyword that the kind
    reads is absent: [uuid] for a user mention, [url] for a link,
    [language] for preformatted text, [size] for a header.  With the
    keyword, and for every other kind whatever the keywords are, it returns
    a format string; for the kinds it does not know (underline, e-mail, room
    mention, colour, spoiler) that is the string it was given. *)
Theorem format_key_errors (self : SignalFormatString.t) (entity_type : EntityType)
    (kwargs : Kwargs) :
  (keyword_present entity_type kwargs = false <->
   SignalFormatString.format self entity_type kwargs = Raise KeyError)
  /\ (keyword_present entity_type kwargs = true <->
      exists r, SignalFormatString.format self entity_type kwargs = Ok r)
  /\ (In entity_type [UNDERLINE; EMAIL; ROOM_MENTION; COLOR; SPOILER] ->
      SignalFormatString.format self entity_type kwargs = Ok self).
Proof.
  unfold keyword_present, SignalFormatString.format.
  split; [|split].
  - destruct entity_type; cbn [kwargs_get bind];
      try (split; [discriminate|discriminate]).
    + destruct (kw_url kwargs); cbn [kwargs_get bind];
        [destruct (list_eq_dec Z.eq_dec p (SignalFormatString.text self))|];
        split; try discriminate; reflexivity.
    + destruct (kw_uuid kwargs); cbn [kwargs_get bind];
        split; try discriminate; reflexivity.
    + destruct (kw_language kwargs); cbn [kwargs_get bind];
        split; try discriminate; reflexivity.
    + destruct (kw_size kwargs); cbn [kwargs_get bind];
        split; try discriminate; reflexivity.
  - destruct entity_type; cbn [kwargs_get bind];
      try (split; [intros _; eexists; reflexivity|reflexivity]).
    + destruct (kw_url kwargs); cbn [kwargs_get bind].
      * split; [intros _|reflexivity].
        destruct (list_eq_dec Z.eq_dec p (SignalFormatString.text self));
          eexists; reflexivity.
      * split; [discriminate|intros [r H]; discriminate].
    + destruct (kw_uuid kwargs); cbn [kwargs_get bind].
      * split; [intros _; eexists; reflexivity|reflexivity].
      * split; [discriminate|intros [r H]; discriminate].
    + destruct (kw_language kwargs); cbn [kwargs_get bind].
      * split; [intros _; eexists; reflexivity|reflexivity].
      * split; [discriminate|intros [r H]; discriminate].
    + destruct (kw_size kwargs); cbn [kwargs_get bind].
      * split; [intros _; eexists; reflexivity|reflexivity].
      * split; [discriminate|intros [r H]; discriminate].
  - intros Hin. cbn [In] in Hin.
    destruct Hin as [<-|[<-|[<-|[<-|[<-|[]]]]]]; reflexivity.
Qed.

Lemma format_key_errors_witness :
  SignalFormatString.format (SignalFormatString.Build (py "Alice") []) HEADER no_kwargs
  = Raise KeyError.
Proof.
  apply (format_key_errors (SignalFormatString.Build (py "Alice") []) HEADER no_kwargs).
  reflexivity.
Defined.

Lemma shift_entity_zero (es : list MentionEntity.t) :
  map (shift_entity 0) es = es.
Proof.
  rewrite <- (map_id es) at 2. apply map_ext. intros [u o l].
  unfold shift_entity. cbn. f_equal. lia.
Qed.

(** X15.  The link rule of [format].  When the address of the link is the
    text itself, the format string is returned as it is; otherwise the
    address is put after the text, in parentheses after a space.  No entity
    moves, since nothing is put before the text. *)
Theorem format_url_rule (self : SignalFormatString.t) (kwargs : Kwargs) (url : pystr) :
  kw_url kwargs = Some url ->
  (url = SignalFormatString.text self ->
   SignalFormatString.format self URL kwargs = Ok self)
  /\ (url <> SignalFormatString.text self ->
      SignalFormatString.format self URL kwargs
      = Ok (SignalFormatString.Build
              (SignalFormatString.text self ++ py " (" ++ url ++ py ")")
              (SignalFormatString.entities self))).
Proof.
  intros Hurl. unfold SignalFormatString.format. rewrite Hurl. cbn [kwargs_get bind].
  destruct (list_eq_dec Z.eq_dec url (SignalFormatString.text self)) as [He|Hne].
  - split; [|contradiction]. intros _. rewrite wrap_spec.
    cbn [app]. rewrite app_nil_r. change (len []) with 0.
    rewrite shift_entity_zero. destruct self; reflexivity.
  - split; [contradiction|]. intros _. rewrite wrap_spec.
    cbn [app]. change (len []) with 0. rewrite shift_entity_zero. reflexivity.
Qed.

Lemma format_url_rule_witness :
  SignalFormatString.format
    (SignalFormatString.Build (py "docs") [Mention.Build (Some 1%N) 0 4]) URL
    {| kw_uuid := None; kw_url := Some (py "https://example.org");
       kw_language := None; kw_size := None |}
  = Ok (SignalFormatString.Build (py "docs (https://example.org)")
          [Mention.Build (Some 1%N) 0 4]).
Proof.
  apply (format_url_rule
           (SignalFormatString.Build (py "docs") [Mention.Build (Some 1%N) 0 4])
           {| kw_uuid := None; kw_url := Some (py "https://example.org");
              kw_language := None; kw_size := None |}
           (py "https://example.org")).
  - reflexivity.
  - discriminate.
Defined.

Lemma format_all_wraps (ops : list (EntityType * Kwargs)) :
  forall (marks : list (pystr * pystr)) (self : SignalFormatString.t),
    map (fun op => wrap_marks (fst op) (snd op)) ops = map Some marks ->
    format_all self ops
    = Ok (SignalFormatString.Build
            (concat (rev (map fst marks)) ++ SignalFormatString.text self
               ++ concat (map snd marks))
            (map (shift_entity (prefix_total marks))
                 (SignalFormatString.entities self))).
Proof.
  induction ops as [|[entity_type kwargs] ops IH]; intros marks self Hm.
  - destruct marks; [|discriminate]. destruct self as [t es].
    cbn. rewrite app_nil_r, shift_entity_zero. reflexivity.
  - destruct marks as [|[prefix suffix] marks]; [discriminate|].
    cbn [map fst snd] in Hm. injection Hm as Hop Hrest.
    cbn [format_all]. rewrite (format_wrap _ _ _ _ _ Hop). cbn [bind].
    rewrite (IH marks _ Hrest).
    cbn [SignalFormatString.text SignalFormatString.entities].
    f_equal. f_equal.
    + cbn [map fst snd rev concat]. rewrite concat_app. cbn [concat].
      rewrite app_nil_r, <- !app_assoc. reflexivity.
    + rewrite map_map. apply map_ext. intros e.
      rewrite shift_entity_shift. reflexivity.
Qed.

Lemma len_concat_rev_prefixes (marks : list (pystr * pystr)) :
  len (concat (rev (map fst marks))) = prefix_total marks.
Proof.
  induction marks as [|[p s] marks IH]; [reflexivity|].
  cbn [map fst rev]. rewrite concat_app, len_app, IH. cbn [concat].
  rewrite app_nil_r. unfold prefix_total. cbn [map fold_right fst]. lia.
Qed.

Lemma covered_inside (p t s : pystr) (o l : Z) :
  0 <= o -> 0 <= l -> o + l <= len t ->
  covered (p ++ t ++ s) (o + len p) l = covered t o l.
Proof.
  intros Ho Hl Hend. unfold covered, py_slice, slice_index.
  rewrite !len_app. pose proof (len_nonneg p). pose proof (len_nonneg s).
  destruct (Z.ltb_spec (o + len p) 0); [lia|].
  destruct (Z.ltb_spec (o + len p + l) 0); [lia|].
  destruct (Z.ltb_spec o 0); [lia|]. destruct (Z.ltb_spec (o + l) 0); [lia|].
  rewrite !Z.min_l by lia.
  replace (o + len p + l - (o + len p)) with l by lia.
  replace (o + l - o) with l by lia.
  replace (Z.to_nat (o + len p)) with (List.length p + Z.to_nat o)%nat
    by (unfold len; lia).
  rewrite skipn_app.
  replace (List.length p + Z.to_nat o - List.length p)%nat with (Z.to_nat o) by lia.
  rewrite skipn_all2 by lia. cbn [app].
  rewrite skipn_app, firstn_app.
  replace (Z.to_nat l - List.length (skipn (Z.to_nat o) t))%nat with 0%nat
    by (rewrite length_skipn; unfold len in *; lia).
  cbn [firstn]. apply app_nil_r.
Qed.

(** X17.  Wrapping keeps every entity on its characters.  After a user
    mention is attached and any sequence of wrapping calls (bold, italic,
    strikethrough, inline code, preformatted, header) is made around it, the
    mention is still the last entity, and the characters that it covers in
    the new text are the text of the pill; and every entity that lay inside
    the old text covers the same characters as before. *)
Theorem mention_survives_wrapping (self : SignalFormatString.t) (uuid : option UUID)
    (ops : list (EntityType * Kwargs)) (marks : list (pystr * pystr)) :
  map (fun op => wrap_marks (fst op) (snd op)) ops = map Some marks ->
  exists r,
    format_all self
      ((USER_MENTION, {| kw_uuid := Some uuid; kw_url := None;
                         kw_language := None; kw_size := None |}) :: ops) = Ok r
    /\ SignalFormatString.entities r
       = map (shift_entity (prefix_total marks)) (SignalFormatString.entities self)
           ++ [Mention.Build uuid (prefix_total marks)
                 (len (SignalFormatString.text self))]
    /\ covered (SignalFormatString.text r) (prefix_total marks)
         (len (SignalFormatString.text self))
       = SignalFormatString.text self
    /\ (forall e, In e (SignalFormatString.entities self) ->
          0 <= Mention.start e -> 0 <= Mention.length e ->
          Mention.start e + Mention.length e <= len (SignalFormatString.text self) ->
          covered (SignalFormatString.text r)
            (Mention.start (shift_entity (prefix_total marks) e)) (Mention.length e)
          = covered (SignalFormatString.text self) (Mention.start e) (Mention.length e)).
Proof.
  intros Hm. cbn [format_all SignalFormatString.format kwargs_get kw_uuid bind].
  rewrite (format_all_wraps ops marks _ Hm).
  cbn [SignalFormatString.text SignalFormatString.entities].
  eexists. split; [reflexivity|].
  cbn [SignalFormatString.text SignalFormatString.entities].
  split; [|split].
  - rewrite map_app. cbn [map]. unfold shift_entity at 2. cbn. reflexivity.
  - rewrite <- len_concat_rev_prefixes.
    unfold covered. apply py_slice_mid.
  - intros e Hin Ho Hl Hend. cbn [shift_entity Mention.start].
    rewrite <- len_concat_rev_prefixes. apply covered_inside; assumption.
Qed.

Lemma mention_survives_wrapping_witness :
  exists r,
    format_all (SignalFormatString.Build (py "Alice") [])
      [(USER_MENTION, {| kw_uuid := Some (Some 1%N); kw_url := None;
                         kw_language := None; kw_size := None |});
       (BOLD, no_kwargs); (ITALIC, no_kwargs)] = Ok r
    /\ SignalFormatString.entities r = [Mention.Build (Some 1%N) 3 5]
    /\ covered (SignalFormatString.text r) 3 5 = py "Alice".
Proof.
  destruct (mention_survives_wrapping (SignalFormatString.Build (py "Alice") [])
              (Some 1%N) [(BOLD, no_kwargs); (ITALIC, no_kwargs)]
              [(py "**", py "**"); (py "_", py "_")] eq_refl)
    as (r & Hr & He & Hc & _).
  exists r. split; [exact Hr|]. split; [exact He|exact Hc].
Defined.

(** ** [matrix_to_signal] *)

Section OutboundProofs.

Variable native : ByteOrder.
Variable parse_html : pystr -> result SignalFormatString.t.

(** X18.  [matrix_to_signal] is not idempotent on emotes.  Since the prefix
    is written into the content, a second call on the same emote content
    prefixes it again: the body then starts with ["/me /me "], and so does a
    formatted body.  Content of any other type is the same after any number
    of calls. *)
Theorem matrix_to_signal_twice (content : TextMessageEventContent) :
  let once := fst (matrix_to_signal native parse_html content) in
  let twice := fst (matrix_to_signal native parse_html once) in
  (msgtype content = EMOTE ->
     body twice = py "/me /me " ++ body content
     /\ (forall html, formatted_body content = Some html -> html <> [] ->
           formatted_body twice = Some (py "/me /me " ++ html)))
  /\ (msgtype content <> EMOTE -> twice = content).
Proof.
  intros once twice. unfold twice, once, matrix_to_signal.
  destruct content as [m b f fb]. cbn [msgtype body format formatted_body fst].
  split.
  - intros ->. split.
    + destruct fb as [[|x s]|]; reflexivity.
    + intros html -> Hne. destruct html as [|x s]; [contradiction|]. reflexivity.
  - intros Hm. destruct m; try contradiction; reflexivity.
Qed.

Lemma matrix_to_signal_html (m : MessageType) (b : pystr) (x : Z) (s : pystr) :
  snd (matrix_to_signal native parse_html
         {| msgtype := m; body := b; format := Some HTML;
            formatted_body := Some (x :: s) |})
  = (surrogated <- add_surrogate
                     (match m with EMOTE => py "/me " ++ x :: s | _ => x :: s end) ;;
     parsed <- parse_html surrogated ;;
     text <- del_surrogate native (SignalFormatString.text parsed) ;;
     Ok (text, SignalFormatString.entities parsed)).
Proof. destruct m; reflexivity. Qed.

(** X19.  Errors of the outbound conversion.  For content with an HTML
    formatted body, an error of the parser is passed on as it is, and an
    error that [matrix_to_signal] raises is either one of the parser or the
    [UnicodeDecodeError] of collapsing the parsed text; there is no other
    source of failure.  Without an HTML formatted body the parser is not
    called and the conversion cannot fail. *)
Theorem matrix_to_signal_errors (content : TextMessageEventContent) :
  (forall html, format content = Some HTML -> formatted_body content = Some html ->
     html <> [] ->
     exists surrogated,
       add_surrogate
         (match msgtype content with EMOTE => py "/me " ++ html | _ => html end)
       = Ok surrogated
       /\ (forall e, parse_html surrogated = Raise e ->
             snd (matrix_to_signal native parse_html content) = Raise e)
       /\ (forall e, snd (matrix_to_signal native parse_html content) = Raise e ->
             parse_html surrogated = Raise e \/ e = UnicodeDecodeError))
  /\ (format content <> Some HTML \/ truthy (formatted_body content) = false ->
      forall e, snd (matrix_to_signal native parse_html content) <> Raise e).
Proof.
  destruct content as [m b f fb]. cbn [msgtype body format formatted_body].
  split.
  - intros html -> -> Hne. destruct html as [|x s]; [contradiction|].
    destruct (add_surrogate_total
                (match m with EMOTE => py "/me " ++ x :: s | _ => x :: s end))
      as [t Ht].
    exists t. split; [exact Ht|].
    assert (Hsnd : snd (matrix_to_signal native parse_html
                          {| msgtype := m; body := b; format := Some HTML;
                             formatted_body := Some (x :: s) |})
                   = (parsed <- parse_html t ;;
                      text <- del_surrogate native (SignalFormatString.text parsed) ;;
                      Ok (text, SignalFormatString.entities parsed))).
    { rewrite matrix_to_signal_html, Ht. reflexivity. }
    split.
    + intros e He. refine (eq_trans Hsnd _). rewrite He. reflexivity.
    + intros e He0. pose proof (eq_trans (eq_sym Hsnd) He0) as He. clear He0.
      destruct (parse_html t) as [parsed|e'] eqn:Hp.
      * cbn [bind] in He. right.
        destruct (del_surrogate native (SignalFormatString.text parsed))
          as [text|e''] eqn:Hd; [discriminate|].
        cbn [bind] in He. injection He as <-.
        apply (del_surrogate_error native _ _ Hd).
      * cbn [bind] in He. left. injection He as <-. reflexivity.
  - intros Hf e. unfold matrix_to_signal.
    cbn [msgtype body format formatted_body snd].
    destruct Hf as [Hf|Hf].
    + destruct f as [[|]|]; try contradiction;
        destruct m, fb as [[|x s]|]; discriminate.
    + destruct fb as [[|x s]|]; try discriminate;
        destruct m, f as [[|]|]; discriminate.
Qed.

(** X20.  The mentions that [matrix_to_signal] returns are the entities of
    the parser, unchanged, and their offsets count UTF-16 code units of the
    returned text: when the parsed text holds code units only, expanding the
    returned text gives the parsed text back, so an offset into the one is
    the same offset into the UTF-16 form of the other. *)
Theorem matrix_to_signal_offsets (content : TextMessageEventContent)
    (text : pystr) (mentions : list Mention.t) :
  format content = Some HTML -> truthy (formatted_body content) = true ->
  snd (matrix_to_signal native parse_html content) = Ok (text, mentions) ->
  exists surrogated parsed,
    parse_html surrogated = Ok parsed
    /\ mentions = SignalFormatString.entities parsed
    /\ (Forall code_unit (SignalFormatString.text parsed) ->
        add_surrogate text = Ok (SignalFormatString.text parsed)).
Proof.
  destruct content as [m b f fb]. cbn [msgtype body format formatted_body].
  intros -> Hfb. destruct fb as [[|x s]|]; try discriminate.
  destruct (add_surrogate_total
              (match m with EMOTE => py "/me " ++ x :: s | _ => x :: s end))
    as [t Ht].
  assert (Hsnd : snd (matrix_to_signal native parse_html
                        {| msgtype := m; body := b; format := Some HTML;
                           formatted_body := Some (x :: s) |})
                 = (parsed <- parse_html t ;;
                    text <- del_surrogate native (SignalFormatString.text parsed) ;;
                    Ok (text, SignalFormatString.entities parsed))).
  { rewrite matrix_to_signal_html, Ht. reflexivity. }
  intros H0. pose proof (eq_trans (eq_sym Hsnd) H0) as H. clear H0.
  destruct (parse_html t) as [parsed|e] eqn:Hp; [|discriminate].
  cbn [bind] in H.
  destruct (del_surrogate native (SignalFormatString.text parsed))
    as [text'|e] eqn:Hd; [|discriminate].
  cbn [bind] in H. injection H as <- <-.
  exists t, parsed. split; [exact Hp|]. split; [reflexivity|].
  intros Hu.
  assert (Hb : Forall (fun u => u < 65536) (SignalFormatString.text parsed))
    by (revert Hu; apply Forall_impl; unfold code_unit; intros c Hc; lia).
  rewrite del_surrogate_units, units_below in Hd by exact Hb.
  destruct (chars_of_units_inv _ _ _ (Nat.le_refl _) Hu Hd) as [He Hw].
  rewrite add_surrogate_expand by (apply well_formed_is_str, Hw).
  rewrite He. reflexivity.
Qed.

End OutboundProofs.

Lemma matrix_to_signal_twice_witness :
  body (fst (matrix_to_signal LittleEndian (fun _ => Raise KeyError)
               (fst (matrix_to_signal LittleEndian (fun _ => Raise KeyError)
                       {| msgtype := EMOTE; body := py "waves"; format := None;
                          formatted_body := None |}))))
  = py "/me /me waves".
Proof.
  apply (matrix_to_signal_twice LittleEndian (fun _ => Raise KeyError)
           {| msgtype := EMOTE; body := py "waves"; format := None;
              formatted_body := None |}).
  reflexivity.
Defined.

Lemma matrix_to_signal_errors_witness :
  snd (matrix_to_signal LittleEndian (fun _ => Raise KeyError)
         {| msgtype := TEXT; body := py "hi"; format := Some HTML;
            formatted_body := Some (py "<b>hi</b>") |})
  = Raise KeyError.
Proof.
  destruct (matrix_to_signal_errors LittleEndian (fun _ => Raise KeyError)
              {| msgtype := TEXT; body := py "hi"; format := Some HTML;
                 formatted_body := Some (py "<b>hi</b>") |}) as [H _].
  destruct (H (py "<b>hi</b>") eq_refl eq_refl ltac:(discriminate))
    as (t & _ & Hraise & _).
  apply Hraise. reflexivity.
Defined.

Lemma matrix_to_signal_offsets_witness :
  exists surrogated parsed,
    (fun s => Ok (SignalFormatString.Build s [Mention.Build (Some 1%N) 0 2]))
      surrogated = Ok parsed
    /\ [Mention.Build (Some 1%N) 0 2] = SignalFormatString.entities parsed
    /\ (Forall code_unit (SignalFormatString.text parsed) ->
        add_surrogate [0x1F600; 33] = Ok (SignalFormatString.text parsed)).
Proof.
  apply (matrix_to_signal_offsets LittleEndian
           (fun s => Ok (SignalFormatString.Build s [Mention.Build (Some 1%N) 0 2]))
           {| msgtype := TEXT; body := py "x"; format := Some HTML;
              formatted_body := Some [0x1F600; 33] |}
           [0x1F600; 33] [Mention.Build (Some 1%N) 0 2]).
  - reflexivity.
  - reflexivity.
  - reflexivity.
Defined.

(** ** Collapsing after expanding *)

(** X16.  Expanding a Python string before collapsing it changes nothing:
    [del_surrogate] of the expansion is [del_surrogate] of the string
    itself, in success and in failure, because the collapse only sees the
    UTF-16 code units.  So the chunks of [signal_to_matrix] may mix expanded
    text with text that was never expanded, such as the Matrix id in the
    anchor. *)
Theorem del_surrogate_after_add_surrogate (native : ByteOrder) (s : pystr) :
  is_str s ->
  (t <- add_surrogate s ;; del_surrogate native t) = del_surrogate native s.
Proof.
  intros Hs. rewrite (add_surrogate_expand s Hs). cbn [bind].
  rewrite !del_surrogate_units, !units_expand, (expand_idem s Hs). reflexivity.
Qed.

Lemma del_surrogate_after_add_surrogate_witness :
  (t <- add_surrogate [0x1F600; 0xDC00] ;; del_surrogate LittleEndian t)
  = del_surrogate LittleEndian [0x1F600; 0xDC00].
Proof.
  apply (del_surrogate_after_add_surrogate LittleEndian [0x1F600; 0xDC00]).
  repeat constructor; lia.
Defined.
